(** * The data-cleaning engine of [client/lib/cleaning.ts]

    A shallow embedding of [toNumber], [quantiles], [winsorize], [mode],
    [normalizeBoolean], [normalizeDate] and [cleanData], and the properties
    the specification states about them.

    Modelling conventions.
    - A finite JavaScript number is a rational [Q]; arithmetic is exact
      (no rounding, no overflow).  The non-finite numbers are the extra
      constructors of [number].  A property that the code has only while
      its arithmetic does not overflow is stated with [in_safe_range].
    - A JavaScript string is a [string] of bytes; the white space that
      [trim] removes is the ASCII part of the ECMAScript white-space set.
    - A row object is a finite map from column names to cell values;
      reading a missing key gives [VUndefined].  [cleanData] is first a
      function on lists of such maps; the module [Heap] then models the
      row objects and the assignments to their properties.
    - Library functions whose result depends on the engine or on binary
      floating point ([parseFloat], [Number.prototype.toString],
      [Number.prototype.toFixed], [Date.parse], [Date.prototype.toString])
      are the fields of a [runtime] record; every theorem holds for every
      runtime. *)

From Stdlib Require Import QArith Qround Qabs ZArith Lia Lqa Ascii String List Sorted.
From stdpp Require Import gmap strings list fin_maps.

Local Open Scope Z_scope.

(** ** Sorting, as [Array.prototype.sort] does it

    [Array.prototype.sort] is stable; with a comparator that is a total
    preorder its result is the unique stable sorted arrangement, which is
    what a right-to-left insertion sort computes.  [le x y] stands for
    "the comparator applied to [x] and [y] is not positive". *)

Module Sort.
Section Sort.
Context {A : Type} (le : A → A → bool).

Fixpoint insert (x : A) (l : list A) : list A :=
  match l with
  | [] => [x]
  | y :: l' => if le x y then x :: l else y :: insert x l'
  end.

Fixpoint sort (l : list A) : list A :=
  match l with
  | [] => []
  | x :: l' => insert x (sort l')
  end.

Lemma insert_length x l : length (insert x l) = S (length l).
Proof. induction l as [|y l IH]; simpl; [done|]. destruct (le x y); simpl; lia. Qed.

Lemma sort_length l : length (sort l) = length l.
Proof. induction l as [|x l IH]; simpl; [done|]. by rewrite insert_length, IH. Qed.

Lemma insert_perm x l : insert x l ≡ₚ x :: l.
Proof.
  induction l as [|y l IH]; simpl; [done|].
  destruct (le x y); [done|]. rewrite IH. apply Permutation_swap.
Qed.

Lemma sort_perm l : sort l ≡ₚ l.
Proof.
  induction l as [|x l IH]; simpl; [done|]. by rewrite insert_perm, IH.
Qed.

Section Sorted.
Hypothesis le_total : ∀ x y, le x y = false → le y x = true.
Hypothesis le_trans : ∀ x y z, le x y = true → le y z = true → le x z = true.

Lemma insert_sorted x l :
  StronglySorted (λ a b, le a b = true) l →
  StronglySorted (λ a b, le a b = true) (insert x l).
Proof.
  induction 1 as [|y l Hs IH Hy]; simpl.
  - repeat constructor.
  - destruct (le x y) eqn:E.
    + constructor; [by constructor|].
      constructor; [done|].
      eapply Forall_impl; [exact Hy|]. intros z Hz. by eapply le_trans.
    + constructor; [done|].
      rewrite (insert_perm x l). constructor; [by apply le_total|done].
Qed.

Lemma sort_sorted l : StronglySorted (λ a b, le a b = true) (sort l).
Proof. induction l; simpl; [constructor|by apply insert_sorted]. Qed.
End Sorted.
End Sort.
End Sort.

(** ** Numbers *)

Inductive number :=
| Fin (q : Q)
| NaN
| Infinity (negative : bool).

Definition Qltb (x y : Q) : bool := negb (Qle_bool y x).

(** ** Statistical summary *)

Module Stats.

(** [a\[i\]]: [None] is [undefined]. *)
Definition at_ (a : list Q) (i : Z) : option Q :=
  if i <? 0 then None else a !! Z.to_nat i.

(** [x + (y - x) * rest] where [y] may be [undefined]; arithmetic on
    [undefined] gives NaN, written [None]. *)
Definition interpolate (x y : option Q) (rest : Q) : option Q :=
  match x, y with
  | Some x, Some y => Some (x + (y - x) * rest)%Q
  | _, _ => None
  end.

(** [v || d] on numbers: NaN and zero are falsy. *)
Definition or_else (v d : option Q) : option Q :=
  match v with
  | Some x => if Qeq_bool x 0 then d else Some x
  | None => d
  end.

Definition sort_numbers (arr : list Q) : list Q := Sort.sort Qle_bool arr.

(** The inner function [q] of [quantiles], applied to the sorted copy.
    [a\[base\]] is defined whenever [a] is not empty and [0 <= p <= 1]
    ([q_base_defined] below), so the final [default] is never used. *)
Definition q (a : list Q) (p : Q) : Q :=
  if (length a =? 0)%nat then 0%Q
  else
    let pos := (inject_Z (Z.of_nat (length a) - 1) * p)%Q in
    let base := Qfloor pos in
    let rest := (pos - inject_Z base)%Q in
    default 0%Q (or_else (interpolate (at_ a base) (at_ a (base + 1)) rest) (at_ a base)).

Record quartiles := { q1 : Q; q2 : Q; q3 : Q }.

Definition quantiles (arr : list Q) : quartiles :=
  let a := sort_numbers arr in
  {| q1 := q a (1 # 4); q2 := q a (1 # 2); q3 := q a (3 # 4) |}.

(** The bounds [lo] and [hi] that [winsorize] computes. *)
Definition fences (arr : list Q) : Q * Q :=
  let qs := quantiles arr in
  let iqr := (q3 qs - q1 qs)%Q in
  ((q1 qs - (3 # 2) * iqr)%Q, (q3 qs + (3 # 2) * iqr)%Q).

(** [v < lo ? lo : v > hi ? hi : v] *)
Definition clip (lo hi v : Q) : Q :=
  if Qltb v lo then lo else if Qltb hi v then hi else v.

Definition winsorize (arr : list Q) : list Q :=
  if (length arr <? 5)%nat then arr
  else let '(lo, hi) := fences arr in fmap (clip lo hi) arr.

(** [mode]: the frequency table is a [Map], which keeps its keys in
    insertion order; it is an association list here.  [bump v m] is
    [map.set(v, (map.get(v) || 0) + 1)]. *)
Section Mode.
Context {T : Type} `{EqDecision T}.

Fixpoint bump (v : T) (m : list (T * nat)) : list (T * nat) :=
  match m with
  | [] => [(v, 1%nat)]
  | (k, n) :: m' =>
      if decide (k = v) then (k, S n) :: m' else (k, n) :: bump v m'
  end.

Definition tally (arr : list T) : list (T * nat) :=
  fold_left (λ m v, bump v m) arr [].

(** The comparator [(a, b) => b\[1\] - a\[1\]] is not positive when the
    count of [b] is at most the count of [a]. *)
Definition by_count_desc (a b : T * nat) : bool := (b.2 <=? a.2)%nat.

Definition mode (arr : list T) : option T :=
  if (length arr =? 0)%nat then None
  else match Sort.sort by_count_desc (tally arr) with
       | e :: _ => Some e.1
       | [] => None
       end.

Definition occurrences (v : T) (arr : list T) : nat :=
  length (filter (λ x, x = v) arr).
End Mode.

End Stats.

(** ** Strings *)

Module JSString.

Definition is_whitespace (c : ascii) : bool :=
  let n := nat_of_ascii c in
  ((9 <=? n) && (n <=? 13) || (n =? 32))%nat.

Fixpoint trimStart (s : string) : string :=
  match s with
  | EmptyString => EmptyString
  | String c s' => if is_whitespace c then trimStart s' else s
  end.

Fixpoint trimEnd (s : string) : string :=
  match s with
  | EmptyString => EmptyString
  | String c s' =>
      match trimEnd s' with
      | EmptyString => if is_whitespace c then EmptyString else String c EmptyString
      | t => String c t
      end
  end.

Definition trim (s : string) : string := trimEnd (trimStart s).

Definition lower (c : ascii) : ascii :=
  let n := nat_of_ascii c in
  if ((65 <=? n) && (n <=? 90))%nat then ascii_of_nat (n + 32) else c.

Fixpoint toLowerCase (s : string) : string :=
  match s with
  | EmptyString => EmptyString
  | String c s' => String (lower c) (toLowerCase s')
  end.

(** [s.replace(/,/g, "")] *)
Fixpoint remove_commas (s : string) : string :=
  match s with
  | EmptyString => EmptyString
  | String c s' =>
      if Ascii.eqb c "," then remove_commas s' else String c (remove_commas s')
  end.

(** [s.slice(from, to)] for [0 <= from <= to]. *)
Definition slice (from to : nat) (s : string) : string :=
  substring from (to - from) s.

(** [list.includes(s)] *)
Definition includes (l : list string) (s : string) : bool :=
  existsb (String.eqb s) l.

(** A string that is not empty and consists of white space only. *)
Definition blank (s : string) : Prop := s ≠ EmptyString ∧ trim s = EmptyString.

End JSString.

(** ** Cell values and the run-time library *)

(** A cell is typed [any] in the source.  A [Date] object is its time
    value in milliseconds since the epoch, [None] for an invalid date. *)
Inductive value :=
| VNull
| VUndefined
| VBool (b : bool)
| VNum (n : number)
| VStr (s : string)
| VDate (t : option Z).

Record runtime := Runtime {
  parseFloat : string → number;
  Number_toString : Q → string;
  Number_toFixed2 : Q → string;
  Date_parse : string → option Z;
  Date_toString : Z → string;
}.

(** [v == null] *)
Definition nullish (v : value) : bool :=
  match v with VNull | VUndefined => true | _ => false end.

(** [v === ""] *)
Definition is_empty_string (v : value) : bool :=
  match v with VStr EmptyString => true | _ => false end.

(** ** Dates: [Date.prototype.toISOString] *)

Module JSDate.

Definition msPerDay : Z := 86400000.

Definition Day (t : Z) : Z := t / msPerDay.
Definition TimeWithinDay (t : Z) : Z := t mod msPerDay.

Definition HourFromTime (t : Z) : Z := TimeWithinDay t / 3600000.
Definition MinFromTime (t : Z) : Z := TimeWithinDay t / 60000 mod 60.
Definition SecFromTime (t : Z) : Z := TimeWithinDay t / 1000 mod 60.
Definition msFromTime (t : Z) : Z := TimeWithinDay t mod 1000.

(** Year, month (1 to 12) and day of the month of a day number in the
    proleptic Gregorian calendar. *)
Definition civil_from_days (days : Z) : Z * Z * Z :=
  let z := days + 719468 in
  let era := z / 146097 in
  let doe := z - era * 146097 in
  let yoe := (doe - doe / 1460 + doe / 36524 - doe / 146096) / 365 in
  let doy := doe - (365 * yoe + yoe / 4 - yoe / 100) in
  let mp := (5 * doy + 2) / 153 in
  let d := doy - (153 * mp + 2) / 5 + 1 in
  let m := if mp <? 10 then mp + 3 else mp - 9 in
  let y := yoe + era * 400 + (if m <=? 2 then 1 else 0) in
  (y, m, d).

Definition YearFromTime (t : Z) : Z := (civil_from_days (Day t)).1.1.

Definition digit (d : Z) : ascii := ascii_of_nat (48 + Z.to_nat d).

Definition pad2 (n : Z) : string :=
  String (digit (n / 10 mod 10)) (String (digit (n mod 10)) EmptyString).
Definition pad3 (n : Z) : string := String (digit (n / 100 mod 10)) (pad2 n).
Definition pad4 (n : Z) : string := String (digit (n / 1000 mod 10)) (pad3 n).
Definition pad6 (n : Z) : string :=
  String (digit (n / 100000 mod 10)) (String (digit (n / 10000 mod 10)) (pad4 n)).

(** Four digits for the years 0 to 9999, a sign and six digits otherwise. *)
Definition year_string (y : Z) : string :=
  if (0 <=? y) && (y <=? 9999) then pad4 y
  else String (if y <? 0 then "-"%char else "+"%char) (pad6 (Z.abs y)).

Definition date_string (t : Z) : string :=
  let '(y, m, d) := civil_from_days (Day t) in
  year_string y +:+ "-" +:+ pad2 m +:+ "-" +:+ pad2 d.

Definition time_string (t : Z) : string :=
  pad2 (HourFromTime t) +:+ ":" +:+ pad2 (MinFromTime t) +:+ ":" +:+ pad2 (SecFromTime t).

Definition toISOString (t : Z) : string :=
  date_string t +:+ "T" +:+ time_string t +:+ "." +:+ pad3 (msFromTime t) +:+ "Z".

(** [TimeClip]: the time value of [new Date(n)] for a number [n]. *)
Definition TimeClip (n : number) : option Z :=
  match n with
  | Fin x =>
      if Qle_bool (Qabs x) (inject_Z 8640000000000000)
      then Some (Z.quot (Qnum x) (Z.pos (Qden x)))
      else None
  | _ => None
  end.

End JSDate.

Section Coercion.
Context (rt : runtime).

(** [String(v)] *)
Definition String_ (v : value) : string :=
  match v with
  | VNull => "null"
  | VUndefined => "undefined"
  | VBool b => if b then "true" else "false"
  | VNum (Fin x) => Number_toString rt x
  | VNum NaN => "NaN"
  | VNum (Infinity neg) => if neg then "-Infinity" else "Infinity"
  | VStr s => s
  | VDate (Some t) => Date_toString rt t
  | VDate None => "Invalid Date"
  end.

Definition toNumber (v : value) : option Q :=
  match v with
  | VNum (Fin x) => Some x
  | _ =>
      if nullish v || is_empty_string v then None
      else match parseFloat rt (JSString.remove_commas (String_ v)) with
           | Fin n => Some n
           | _ => None
           end
  end.

Definition normalizeBoolean (v : value) : option bool :=
  match v with
  | VBool b => Some b
  | _ =>
      if nullish v || is_empty_string v then None
      else
        let s := JSString.toLowerCase (JSString.trim (String_ v)) in
        if JSString.includes ["true"; "yes"; "y"; "1"] s then Some true
        else if JSString.includes ["false"; "no"; "n"; "0"] s then Some false
        else None
  end.

(** The time value of [new Date(v)]; [None] is NaN. *)
Definition new_Date (v : value) : option Z :=
  match v with
  | VDate t => t
  | VStr s => Date_parse rt s
  | VNum n => JSDate.TimeClip n
  | VBool b => Some (if b then 1 else 0)
  | VNull => Some 0
  | VUndefined => None
  end.

(** [v instanceof Date ? v : new Date(v)], as a time value. *)
Definition date_value (v : value) : option Z :=
  match v with VDate t => t | _ => new_Date v end.

Definition normalizeDate (v : value) : option string :=
  if nullish v || is_empty_string v then None
  else
    match date_value v with
    | None => None
    | Some t =>
        let iso := JSDate.toISOString t in
        if String.eqb (JSString.slice 11 19 iso) "00:00:00"
        then Some (JSString.slice 0 10 iso)
        else Some iso
    end.

End Coercion.

(** ** The column cleaner *)

(** Modelled from the spec: the declarations of [Row] and [DatasetProfile]
    live in [./excel] and [./dataAnalysis]; a column descriptor has a name
    and a type, and a profile is the ordered sequence [columns].  The
    source compares [col.type] with five string literals and has no final
    [else]: [other] stands for every type that is none of the five. *)
Inductive ColumnType := numeric | boolean | datetime | categorical | text | other.

(** The types that [cleanData] has a branch for. *)
Definition supported (ty : ColumnType) : bool :=
  match ty with other => false | _ => true end.

Record Column := { name : string; type : ColumnType }.

Record DatasetProfile := { columns : list Column }.

Abbreviation Row := (gmap string value).

Record CleaningResult := { rows : list Row; report : list string }.

(** [rr\[name\]] *)
Definition get (rr : Row) (k : string) : value := default VUndefined (rr !! k).

Section Cleaning.
Context (rt : runtime).

(** *** Phase 1: one summary statistic per column, from the raw rows *)

Definition numeric_samples (rws : list Row) (k : string) : list Q :=
  omap (λ rr, toNumber rt (get rr k)) rws.

Definition boolean_samples (rws : list Row) (k : string) : list bool :=
  omap (λ rr, normalizeBoolean rt (get rr k)) rws.

Definition text_samples (rws : list Row) (k : string) : list string :=
  filter (λ s, s ≠ EmptyString)
    (omap (λ rr, if nullish (get rr k) || is_empty_string (get rr k) then None
                 else Some (JSString.trim (String_ rt (get rr k)))) rws).

Definition summarize (rws : list Row)
    (st : gmap string Q * gmap string value) (col : Column)
    : gmap string Q * gmap string value :=
  let '(medians, modes) := st in
  match type col with
  | numeric =>
      let nums := numeric_samples rws (name col) in
      if (length nums =? 0)%nat then st
      else (<[name col := Stats.q2 (Stats.quantiles nums)]> medians, modes)
  | boolean =>
      match Stats.mode (boolean_samples rws (name col)) with
      | Some m => (medians, <[name col := VBool m]> modes)
      | None => st
      end
  | categorical | text =>
      match Stats.mode (text_samples rws (name col)) with
      | Some m => (medians, <[name col := VStr m]> modes)
      | None => st
      end
  | datetime | other => st
  end.

(** *** Phase 2: rewrite the column in every output row *)

Definition numeric_fill (medians : gmap string Q) (k : string) : Q :=
  default 0%Q (medians !! k).

Definition converted (median : Q) (out : list Row) (k : string) : list Q :=
  fmap (λ rr, default median (toNumber rt (get rr k))) out.

Definition text_fill (modes : gmap string value) (k : string) : value :=
  default (VStr "Unknown") (modes !! k).

Definition clean_datetime (v : value) : value :=
  match normalizeDate rt v with Some s => VStr s | None => v end.

Definition clean_boolean (m : option value) (v : value) : value :=
  match normalizeBoolean rt v with
  | Some b => VBool b
  | None => default (VBool false) m
  end.

Definition clean_text (m : value) (v : value) : value :=
  if nullish v || is_empty_string v then m
  else VStr (JSString.trim (String_ rt v)).

Definition report_line (medians : gmap string Q) (modes : gmap string value)
    (col : Column) : option string :=
  match type col with
  | numeric =>
      Some (name col +:+ ": converted to number, imputed median "
              +:+ Number_toFixed2 rt (numeric_fill medians (name col))
              +:+ ", winsorized outliers")
  | datetime =>
      Some (name col +:+ ": normalized dates to ISO (YYYY-MM-DD or ISO 8601)")
  | boolean =>
      Some (name col +:+ ": normalized booleans and filled missing with mode")
  | categorical | text =>
      Some (name col +:+ ": trimmed text and filled missing with '"
              +:+ String_ rt (text_fill modes (name col)) +:+ "'")
  | other => None
  end.

Definition transform_rows (medians : gmap string Q) (modes : gmap string value)
    (out : list Row) (col : Column) : list Row :=
  let k := name col in
  match type col with
  | numeric =>
      let clipped := Stats.winsorize (converted (numeric_fill medians k) out k) in
      zip_with (λ rr c, <[k := VNum (Fin c)]> rr) out clipped
  | datetime => fmap (λ rr, <[k := clean_datetime (get rr k)]> rr) out
  | boolean => fmap (λ rr, <[k := clean_boolean (modes !! k) (get rr k)]> rr) out
  | categorical | text =>
      fmap (λ rr, <[k := clean_text (text_fill modes k) (get rr k)]> rr) out
  | other => out
  end.

Definition transform (medians : gmap string Q) (modes : gmap string value)
    (st : list Row * list string) (col : Column) : list Row * list string :=
  (transform_rows medians modes st.1 col,
   st.2 ++ option_list (report_line medians modes col)).

Definition summaries (rws : list Row) (profile : DatasetProfile)
    : gmap string Q * gmap string value :=
  fold_left (summarize rws) (columns profile) (∅, ∅).

(** The output rows are copies, so the rewriting in phase 2 is a
    function from lists of rows to lists of rows; [Heap.cleanData] below
    models the objects themselves. *)
Definition cleanData (rws : list Row) (profile : DatasetProfile) : CleaningResult :=
  let '(medians, modes) := summaries rws profile in
  let st := fold_left (transform medians modes) (columns profile) (rws, []) in
  {| rows := st.1; report := st.2 |}.

End Cleaning.

(** The columns of the profile that [cleanData] has a branch for, in the
    order of the profile. *)
Definition reported (profile : DatasetProfile) : list Column :=
  filter (λ col, supported (type col) = true) (columns profile).

(** ** A reference run-time library

    One concrete [runtime], used to run the model on examples: decimal
    literals for [parseFloat], plain decimal notation for numbers, the two
    ISO 8601 forms that [Date.parse] must accept, and the UTC time zone
    for [Date.prototype.toString]. *)

Module Reference.
Import JSString JSDate.

Definition digit_of (c : ascii) : option Z :=
  let n := nat_of_ascii c in
  if ((48 <=? n) && (n <=? 57))%nat then Some (Z.of_nat n - 48) else None.

(** The value and the number of the leading decimal digits, and the rest. *)
Fixpoint read_digits (s : string) (acc : Z) (n : nat) : Z * nat * string :=
  match s with
  | String c s' =>
      match digit_of c with
      | Some d => read_digits s' (10 * acc + d) (S n)
      | None => (acc, n, s)
      end
  | EmptyString => (acc, n, s)
  end.

Definition read_sign (s : string) : bool * string :=
  match s with
  | String "-" s' => (true, s')
  | String "+" s' => (false, s')
  | _ => (false, s)
  end.

Definition read_exponent (s : string) : Z :=
  match s with
  | String c s' =>
      if Ascii.eqb c "e" || Ascii.eqb c "E" then
        let '(neg, s'') := read_sign s' in
        let '(e, n, _) := read_digits s'' 0 0 in
        if (n =? 0)%nat then 0 else if neg then - e else e
      else 0
  | EmptyString => 0
  end.

Definition pow10 (e : Z) : Q :=
  if e <? 0 then (1 # Z.to_pos (10 ^ (- e)))%Q else inject_Z (10 ^ e).

Definition parseFloat (s : string) : number :=
  let '(neg, s0) := read_sign (trimStart s) in
  if String.prefix "Infinity" s0 then Infinity neg
  else
    let '(ip, ni, s1) := read_digits s0 0 0 in
    let '(fp, nf, s2) :=
      match s1 with
      | String "." s' => read_digits s' 0 0
      | _ => (0, 0%nat, s1)
      end in
    if (ni + nf =? 0)%nat then NaN
    else
      let m := (inject_Z ip + inject_Z fp * pow10 (- Z.of_nat nf))%Q in
      let x := (m * pow10 (read_exponent s2))%Q in
      Fin (Qred (if neg then - x else x)%Q).

Fixpoint nat_digits (fuel : nat) (n : Z) (acc : string) : string :=
  match fuel with
  | O => acc
  | S fuel' =>
      let acc' := String (digit (n mod 10)) acc in
      if n / 10 =? 0 then acc' else nat_digits fuel' (n / 10) acc'
  end.

(** Decimal notation of a natural number. *)
Definition decimal (n : Z) : string := nat_digits (S (Z.to_nat (Z.log2 n))) n EmptyString.

(** At most [fuel] digits of the fraction [r / d], [0 <= r < d]. *)
Fixpoint fraction_digits (fuel : nat) (r d : Z) : string :=
  match fuel with
  | O => EmptyString
  | S fuel' =>
      if r =? 0 then EmptyString
      else String (digit (10 * r / d)) (fraction_digits fuel' (10 * r mod d) d)
  end.

Definition Number_toString (x : Q) : string :=
  let n := Z.abs (Qnum x) in
  let d := Z.pos (Qden x) in
  let frac := fraction_digits 20 (n mod d) d in
  (if Qnum x <? 0 then "-" else "") +:+ decimal (n / d)
    +:+ (if String.eqb frac "" then "" else "." +:+ frac).

Definition Number_toFixed2 (x : Q) : string :=
  let a := Qabs x in
  let n := Qfloor (a * 100 + (1 # 2))%Q in
  (if Qltb x 0 then "-" else "") +:+ decimal (n / 100) +:+ "." +:+ pad2 (n mod 100).

Definition days_from_civil (y m d : Z) : Z :=
  let y' := if m <=? 2 then y - 1 else y in
  let era := y' / 400 in
  let yoe := y' - era * 400 in
  let doy := (153 * (if 2 <? m then m - 3 else m + 9) + 2) / 5 + d - 1 in
  let doe := yoe * 365 + yoe / 4 - yoe / 100 + doy in
  era * 146097 + doe - 719468.

(** Exactly [n] decimal digits, then the rest. *)
Definition read_field (n : nat) (s : string) : option (Z * string) :=
  let '(v, k, _) := read_digits (substring 0 n s) 0 0 in
  if (k =? n)%nat then Some (v, substring n (String.length s - n) s) else None.

Definition expect (c : ascii) (s : string) : option string :=
  match s with
  | String c' s' => if Ascii.eqb c c' then Some s' else None
  | EmptyString => None
  end.

Definition parse_date (s : string) : option (Z * string) :=
  '(y, s) ← read_field 4 s; s ← expect "-" s;
  '(m, s) ← read_field 2 s; s ← expect "-" s;
  '(d, s) ← read_field 2 s;
  let days := days_from_civil y m d in
  if bool_decide (civil_from_days days = (y, m, d)) then Some (days, s) else None.

Definition parse_time (s : string) : option Z :=
  s ← expect "T" s;
  '(h, s) ← read_field 2 s; s ← expect ":" s;
  '(mi, s) ← read_field 2 s; s ← expect ":" s;
  '(sec, s) ← read_field 2 s; s ← expect "." s;
  '(ms, s) ← read_field 3 s;
  if String.eqb s "Z" && (h <? 24) && (mi <? 60) && (sec <? 60)
  then Some (((h * 60 + mi) * 60 + sec) * 1000 + ms) else None.

Definition Date_parse (s : string) : option Z :=
  '(days, s) ← parse_date s;
  if String.eqb s "" then Some (days * msPerDay)
  else t ← parse_time s; Some (days * msPerDay + t).

Definition week_day (t : Z) : string :=
  default "" (["Thu"; "Fri"; "Sat"; "Sun"; "Mon"; "Tue"; "Wed"] !! Z.to_nat (Day t mod 7)).

Definition month_name (m : Z) : string :=
  default "" (["Jan"; "Feb"; "Mar"; "Apr"; "May"; "Jun"; "Jul"; "Aug"; "Sep"; "Oct";
               "Nov"; "Dec"] !! Z.to_nat (m - 1)).

Definition Date_toString (t : Z) : string :=
  let '(y, m, d) := civil_from_days (Day t) in
  week_day t +:+ " " +:+ month_name m +:+ " " +:+ pad2 d +:+ " "
    +:+ (if y <? 0 then "-" +:+ pad6 (- y) else pad4 y) +:+ " " +:+ time_string t
    +:+ " GMT+0000 (Coordinated Universal Time)".

Definition rt : runtime :=
  Runtime parseFloat Number_toString Number_toFixed2 Date_parse Date_toString.

End Reference.


(** * Properties *)

(** ** The frequency table and [mode] *)

Section ModeFacts.
Context {T : Type} `{EqDecision T}.
Implicit Types (arr seen : list T) (m : list (T * nat)) (v k : T).
Import Stats.

(** [m] is the frequency table of the values seen so far, [seen]. *)
Record table_of (seen : list T) (m : list (T * nat)) : Prop := {
  table_nodup : NoDup m.*1;
  table_count : ∀ k c, (k, c) ∈ m → c = occurrences k seen ∧ (0 < c)%nat;
  table_keys : ∀ k, k ∈ seen → k ∈ m.*1;
  table_order : ∀ m1 k c m2 k',
    m = m1 ++ (k, c) :: m2 → k' ∈ m1.*1 →
    ∃ i, seen !! i = Some k' ∧ ∀ j, seen !! j = Some k → (i < j)%nat;
}.

Lemma occurrences_snoc k seen v :
  occurrences k (seen ++ [v]) =
    (if decide (v = k) then S (occurrences k seen) else occurrences k seen).
Proof.
  unfold occurrences. rewrite filter_app, length_app.
  rewrite filter_cons, filter_nil. destruct (decide (v = k)); simpl; lia.
Qed.

Lemma occurrences_pos k seen : k ∈ seen ↔ (0 < occurrences k seen)%nat.
Proof.
  unfold occurrences. split.
  - intros Hk. assert (k ∈ filter (λ x, x = k) seen) as Hf
      by (by apply list_elem_of_filter).
    destruct (filter _ seen); [by apply elem_of_nil in Hf|simpl; lia].
  - intros Hlen. destruct (filter (λ x, x = k) seen) as [|x l] eqn:E; [simpl in Hlen; lia|].
    assert (x ∈ filter (λ x, x = k) seen) as Hx by (rewrite E; left).
    apply list_elem_of_filter in Hx as [-> ?]. done.
Qed.

Lemma bump_keys_in v m : v ∈ m.*1 → (bump v m).*1 = m.*1.
Proof.
  induction m as [|[k c] m IH]; simpl; [by intros ?%elem_of_nil|].
  intros Hv. destruct (decide (k = v)) as [->|Hne]; simpl; [done|].
  f_equal. apply IH. apply elem_of_cons in Hv as [?|?]; [congruence|done].
Qed.

Lemma bump_keys_fresh v m : v ∉ m.*1 → bump v m = m ++ [(v, 1%nat)].
Proof.
  induction m as [|[k c] m IH]; simpl; [done|].
  intros Hv. apply not_elem_of_cons in Hv as [Hne Hv].
  destruct (decide (k = v)); [congruence|]. by rewrite IH.
Qed.

Lemma bump_elem_in v m k c :
  NoDup m.*1 → v ∈ m.*1 →
  (k, c) ∈ bump v m ↔
    (k ≠ v ∧ (k, c) ∈ m) ∨ (k = v ∧ ∃ c', c = S c' ∧ (v, c') ∈ m).
Proof.
  induction m as [|[k0 c0] m IH]; simpl; [by intros _ ?%elem_of_nil|].
  intros [Hk0 Hnd]%NoDup_cons Hv.
  assert (∀ c1, (k0, c1) ∈ m → False) as Hfresh.
  { intros c1 Hin. apply Hk0. apply list_elem_of_fmap. by exists (k0, c1). }
  destruct (decide (k0 = v)) as [->|Hne].
  - setoid_rewrite elem_of_cons. split.
    + intros [[= -> ->]|Hin].
      * right. split; [done|]. exists c0. split; [done|by left].
      * left. split; [|by right]. intros ->. by eapply Hfresh.
    + intros [[Hkv [[= -> ->]|Hin]]|[-> (c' & -> & [[= ->]|Hin])]].
      * done.
      * by right.
      * by left.
      * exfalso. by eapply Hfresh.
  - apply elem_of_cons in Hv as [?|Hv]; [congruence|].
    setoid_rewrite elem_of_cons. rewrite (IH Hnd Hv). split.
    + intros [[= -> ->]|[[Hkv Hin]|[-> (c' & -> & Hin)]]].
      * left. split; [done|by left].
      * left. split; [done|by right].
      * right. split; [done|]. exists c'. split; [done|by right].
    + intros [[Hkv [[= -> ->]|Hin]]|[-> (c' & -> & [[= -> ->]|Hin])]].
      * by left.
      * right. by left.
      * done.
      * right. right. split; [done|]. by exists c'.
Qed.

Lemma table_of_nil : table_of [] [].
Proof.
  split; simpl.
  - constructor.
  - by intros ?? ?%elem_of_nil.
  - by intros ? ?%elem_of_nil.
  - intros [] ?????; done.
Qed.

Lemma table_of_snoc seen m v : table_of seen m → table_of (seen ++ [v]) (bump v m).
Proof.
  intros [Hnd Hcount Hkeys Horder].
  destruct (decide (v ∈ m.*1)) as [Hin|Hnin].
  - assert (v ∈ seen) as Hseen.
    { apply list_elem_of_fmap in Hin as ([k c] & -> & Hin).
      apply Hcount in Hin as [-> Hpos]. by apply occurrences_pos. }
    split.
    + by rewrite bump_keys_in.
    + intros k c Hkc. rewrite occurrences_snoc.
      apply bump_elem_in in Hkc as [[Hne Hkc]|[-> (c' & -> & Hkc)]]; [| |done..].
      * destruct (decide (v = k)); [congruence|]. by apply Hcount.
      * destruct (decide (v = v)); [|done]. apply Hcount in Hkc as [-> ?]. lia.
    + intros k [Hk|Hk%list_elem_of_singleton]%elem_of_app; rewrite bump_keys_in; auto.
      by subst.
    + intros m1 k c m2 k' Hm Hk'.
      assert (∃ c0, m = (take (length m1) m) ++ (k, c0) :: drop (S (length m1)) m
                    ∧ (take (length m1) m).*1 = m1.*1) as (c0 & Hm' & Hpre).
      { assert ((bump v m).*1 = m.*1) as Hkeys' by by apply bump_keys_in.
        rewrite Hm in Hkeys'. rewrite fmap_app, fmap_cons in Hkeys'. simpl in Hkeys'.
        assert (m.*1 !! length m1 = Some k) as Hlk.
        { rewrite <- Hkeys'. rewrite lookup_app_r by (by rewrite length_fmap).
          by rewrite length_fmap, Nat.sub_diag. }
        rewrite list_lookup_fmap in Hlk.
        destruct (m !! length m1) as [[k0 c0]|] eqn:E; simpl in Hlk; [|done].
        injection Hlk as ->. exists c0. split.
        - by rewrite <- (take_drop_middle m (length m1) (k, c0)) at 1.
        - rewrite fmap_take, <- Hkeys'.
          rewrite take_app_length' by (by rewrite length_fmap). done. }
      rewrite <- Hpre in Hk'.
      destruct (Horder _ _ _ _ _ Hm' Hk') as (i & Hi & Hlt).
      exists i. split; [by apply lookup_app_l_Some|].
      intros j Hj. apply lookup_app_Some in Hj as [Hj|[Hge Hj]]; [by apply Hlt|].
      apply lookup_lt_Some in Hi. lia.
  - assert (v ∉ seen) as Hseen by (intros ?; by apply Hnin, Hkeys).
    rewrite bump_keys_fresh by done. split.
    + rewrite fmap_app. simpl. apply NoDup_app. split; [done|]. split.
      * intros x Hx ->%list_elem_of_singleton. done.
      * apply NoDup_singleton.
    + intros k c [Hkc|[= -> ->]%list_elem_of_singleton]%elem_of_app;
        rewrite occurrences_snoc.
      * destruct (decide (v = k)) as [->|?]; [|by apply Hcount].
        exfalso. apply Hnin. apply list_elem_of_fmap. by exists (k, c).
      * destruct (decide (v = v)); [|done].
        assert (occurrences v seen = 0%nat) as ->; [|split; [done|lia]].
        destruct (occurrences v seen) eqn:E; [done|].
        exfalso. apply Hseen. apply occurrences_pos. lia.
    + intros k Hk. rewrite fmap_app. simpl.
      apply elem_of_app in Hk as [Hk|Hk]; apply elem_of_app; [left; auto|by right].
    + intros m1 k c m2 k' Hm Hk'.
      destruct m2 as [|e m2 _] using rev_ind.
      * apply app_inj_tail in Hm as [<- [= <- <-]].
        apply list_elem_of_fmap in Hk' as ([k0 c0] & -> & Hin). simpl.
        apply Hcount in Hin as [-> Hpos]. apply occurrences_pos in Hpos.
        apply list_elem_of_lookup in Hpos as [i Hi]. exists i.
        split; [by apply lookup_app_l_Some|].
        intros j Hj. apply lookup_app_Some in Hj as [Hj|[Hge Hj]].
        -- exfalso. apply Hseen. by eapply list_elem_of_lookup_2.
        -- apply lookup_lt_Some in Hi. lia.
      * rewrite app_comm_cons, app_assoc in Hm.
        apply app_inj_tail in Hm as [-> <-].
        destruct (Horder _ _ _ _ _ eq_refl Hk') as (i & Hi & Hlt).
        exists i. split; [by apply lookup_app_l_Some|].
        intros j Hj. apply lookup_app_Some in Hj as [Hj|[Hge Hj]]; [by apply Hlt|].
        apply lookup_lt_Some in Hi. lia.
Qed.

Lemma tally_snoc arr v : tally (arr ++ [v]) = bump v (tally arr).
Proof. unfold tally. by rewrite fold_left_app. Qed.

Lemma tally_table arr : table_of arr (tally arr).
Proof.
  induction arr as [|v arr IH] using rev_ind; [apply table_of_nil|].
  rewrite tally_snoc. by apply table_of_snoc.
Qed.

(** The head of the stable sort by descending count is the first entry
    of maximal count. *)
Lemma sort_head_first_max (m : list (T * nat)) :
  m ≠ [] →
  ∃ pre e post, m = pre ++ e :: post
    ∧ head (Sort.sort by_count_desc m) = Some e
    ∧ (∀ x, x ∈ pre → (x.2 < e.2)%nat)
    ∧ (∀ x, x ∈ post → (x.2 ≤ e.2)%nat).
Proof.
  induction m as [|x m IH]; [done|]. intros _. simpl.
  destruct m as [|y m].
  { exists [], x, []. simpl. repeat split; by intros ? ?%elem_of_nil. }
  destruct IH as (pre & e & post & Hm & Hhead & Hpre & Hpost); [done|].
  destruct (Sort.sort by_count_desc (y :: m)) as [|h s] eqn:Es; [done|].
  injection Hhead as ->. simpl.
  destruct (by_count_desc x e) eqn:Ele; unfold by_count_desc in Ele.
  - apply Nat.leb_le in Ele. exists [], x, (y :: m). simpl.
    split; [done|]. split; [done|]. split; [by intros ? ?%elem_of_nil|].
    intros z Hz. rewrite Hm in Hz.
    apply elem_of_app in Hz as [Hz|[->|Hz]%elem_of_cons].
    + apply Hpre in Hz. lia.
    + done.
    + apply Hpost in Hz. lia.
  - apply Nat.leb_gt in Ele. exists (x :: pre), e, post. simpl.
    split; [by rewrite Hm|]. split; [done|]. split; [|done].
    intros z [->|Hz]%elem_of_cons; [done|by apply Hpre].
Qed.

Lemma mode_nil : mode (@nil T) = None.
Proof. done. Qed.

Lemma mode_first_max arr :
  arr ≠ [] →
  ∃ r, mode arr = Some r
    ∧ r ∈ arr
    ∧ (∀ v, (occurrences v arr ≤ occurrences r arr)%nat)
    ∧ (∀ v, v ≠ r → occurrences v arr = occurrences r arr →
         ∃ i, arr !! i = Some r ∧ ∀ j, arr !! j = Some v → (i < j)%nat).
Proof.
  intros Hne. unfold mode.
  destruct arr as [|a0 arr0] eqn:Earr; [done|]. rewrite <- Earr in *. clear Hne.
  assert ((length arr =? 0)%nat = false) as -> by (by rewrite Earr).
  destruct (tally_table arr) as [Hnd Hcount Hkeys Horder].
  assert (tally arr ≠ []) as Hne.
  { intros E. specialize (Hkeys a0). rewrite E in Hkeys.
    eapply elem_of_nil, Hkeys. rewrite Earr. left. }
  destruct (sort_head_first_max _ Hne) as (pre & [r c] & post & Hm & Hhead & Hpre & Hpost).
  destruct (Sort.sort by_count_desc (tally arr)) as [|h s]; [done|].
  injection Hhead as ->. exists r. simpl in *.
  assert ((r, c) ∈ tally arr) as Hr by (rewrite Hm; set_solver).
  destruct (Hcount _ _ Hr) as [Hc Hcpos].
  assert (∀ v, v ∈ arr → ∃ cv, (v, cv) ∈ tally arr ∧ cv = occurrences v arr) as Hentry.
  { intros v Hv. apply Hkeys, list_elem_of_fmap in Hv as ([k cv] & -> & Hin).
    exists cv. split; [done|]. by apply Hcount in Hin as [-> _]. }
  split; [done|]. split; [apply occurrences_pos; lia|]. split.
  - intros v. destruct (decide (v ∈ arr)) as [Hv|Hv].
    + destruct (Hentry v Hv) as (cv & Hin & <-). rewrite <- Hc.
      rewrite Hm in Hin. apply elem_of_app in Hin as [Hin|[[= -> ->]|Hin]%elem_of_cons].
      * apply Hpre in Hin. simpl in Hin. lia.
      * done.
      * by apply Hpost in Hin.
    + assert (occurrences v arr = 0)%nat as ->; [|lia].
      destruct (occurrences v arr) eqn:E; [done|].
      exfalso. apply Hv, occurrences_pos. lia.
  - intros v Hvr Heq.
    assert (v ∈ arr) as Hv by (apply occurrences_pos; lia).
    destruct (Hentry v Hv) as (cv & Hin & Hcv).
    rewrite Hm in Hin. apply elem_of_app in Hin as [Hin|[[= -> ->]|Hin]%elem_of_cons].
    + apply Hpre in Hin. simpl in Hin. lia.
    + done.
    + apply list_elem_of_split in Hin as (p1 & p2 & ->).
      assert (r ∈ (pre ++ (r, c) :: p1).*1) as Hrpre.
      { rewrite fmap_app, fmap_cons. set_solver. }
      refine (Horder (pre ++ (r, c) :: p1) v cv p2 r _ Hrpre).
      rewrite Hm. by rewrite <- app_assoc.
Qed.

End ModeFacts.

(** C6.  [mode] of the empty list is missing; for a non-empty list it
    returns a value of the list whose number of occurrences is maximal, and
    every other value with as many occurrences is first met later in the
    list than the value returned. *)
Theorem mode_most_frequent_first_seen {T : Type} `{EqDecision T} (arr : list T) :
  (arr = [] ∧ Stats.mode arr = None)
  ∨ (arr ≠ [] ∧
     ∃ r, Stats.mode arr = Some r
       ∧ r ∈ arr
       ∧ (∀ v, (Stats.occurrences v arr ≤ Stats.occurrences r arr)%nat)
       ∧ (∀ v, v ≠ r → Stats.occurrences v arr = Stats.occurrences r arr →
            ∃ i, arr !! i = Some r ∧ ∀ j, arr !! j = Some v → (i < j)%nat)).
Proof.
  destruct (decide (length arr = 0%nat)) as [E|E].
  - left. apply nil_length_inv in E. subst. split; [done|apply mode_nil].
  - right. assert (arr ≠ []) as Hne by (intros ->; done).
    split; [done|]. by apply mode_first_max.
Qed.

(** ** [quantiles] *)

Module Spec.

(** The quantile as the specification words it: position
    [(count - 1) * p], the value at the lower index, interpolated
    linearly toward the next index by the fractional remainder. *)
Definition r7 (arr : list Q) (p : Q) : Q :=
  let a := Stats.sort_numbers arr in
  let pos := (inject_Z (Z.of_nat (length a) - 1) * p)%Q in
  let i := Z.to_nat (Qfloor pos) in
  (nth i a 0 + (nth (S i) a 0 - nth i a 0) * (pos - inject_Z (Qfloor pos)))%Q.

End Spec.

Section QuantileFacts.
Import Stats.
Local Open Scope Q_scope.

Lemma position_bounds (n : nat) (p : Q) :
  (0 < n)%nat → 0 <= p → p <= 1 →
  let pos := inject_Z (Z.of_nat n - 1) * p in
  (0 <= Qfloor pos)%Z ∧ (Qfloor pos <= Z.of_nat n - 1)%Z
  ∧ ((Qfloor pos = Z.of_nat n - 1)%Z → pos - inject_Z (Qfloor pos) == 0).
Proof.
  intros Hn Hp0 Hp1 pos.
  assert (0 <= inject_Z (Z.of_nat n - 1)) as Hn0.
  { rewrite <- (Zle_Qle 0). lia. }
  assert (0 <= pos) as Hpos0 by (by apply Qmult_le_0_compat).
  assert (pos <= inject_Z (Z.of_nat n - 1)) as Hpos1.
  { unfold pos. rewrite <- (Qmult_1_r (inject_Z (Z.of_nat n - 1))) at 2.
    by apply Qmult_le_l_weak || (apply Qmult_le_compat_nonneg; split; auto; apply Qle_refl). }
  assert (0 <= Qfloor pos)%Z as Hf0.
  { change 0%Z with (Qfloor 0). by apply Qfloor_resp_le. }
  assert (Qfloor pos <= Z.of_nat n - 1)%Z as Hf1.
  { rewrite <- (Qfloor_Z (Z.of_nat n - 1)). by apply Qfloor_resp_le. }
  split; [done|]. split; [done|].
  intros E. pose proof (Qfloor_le pos) as Hle. rewrite E in Hle |- *.
  apply Qle_antisym.
  - apply (Qplus_le_l _ _ (inject_Z (Z.of_nat n - 1))). ring_simplify. done.
  - apply (Qplus_le_l _ _ (inject_Z (Z.of_nat n - 1))). ring_simplify. done.
Qed.

(** [a\[base\]] is defined. *)
Lemma q_base_defined (a : list Q) (p : Q) :
  a ≠ [] → 0 <= p → p <= 1 →
  is_Some (at_ a (Qfloor (inject_Z (Z.of_nat (length a) - 1) * p))).
Proof.
  intros Ha Hp0 Hp1.
  assert (0 < length a)%nat as Hlen by (destruct a; [done|simpl; lia]).
  destruct (position_bounds _ p Hlen Hp0 Hp1) as (H0 & H1 & _).
  unfold at_. destruct (Z.ltb_spec (Qfloor (inject_Z (Z.of_nat (length a) - 1) * p)) 0); [lia|].
  apply lookup_lt_is_Some. lia.
Qed.

Lemma quantiles_nil : quantiles [] = {| q1 := 0; q2 := 0; q3 := 0 |}.
Proof. reflexivity. Qed.

(** Away from zero [q] is the quantile of the specification; where the
    interpolated value is zero, [q] is the value at the lower index. *)
Lemma q_r7 (arr : list Q) (p : Q) :
  arr ≠ [] → 0 <= p → p <= 1 →
  let a := sort_numbers arr in
  let base := Qfloor (inject_Z (Z.of_nat (length a) - 1) * p) in
  (¬ Spec.r7 arr p == 0 → q a p == Spec.r7 arr p)
  ∧ (Spec.r7 arr p == 0 → Some (q a p) = at_ a base).
Proof.
  intros Harr Hp0 Hp1 a base.
  assert (a ≠ []) as Ha.
  { unfold a, sort_numbers. intros E. apply (f_equal length) in E.
    rewrite Sort.sort_length in E. by destruct arr. }
  assert (0 < length a)%nat as Hlen by (destruct a; [done|simpl; lia]).
  destruct (position_bounds _ p Hlen Hp0 Hp1) as (H0 & H1 & Hrest).
  fold base in H0, H1, Hrest.
  unfold q, Spec.r7. fold a. fold base.
  assert ((length a =? 0)%nat = false) as -> by (apply Nat.eqb_neq; lia).
  unfold at_. destruct (Z.ltb_spec base 0); [lia|].
  destruct (Z.ltb_spec (base + 1) 0); [lia|].
  replace (Z.to_nat (base + 1)) with (S (Z.to_nat base)) by lia.
  destruct (a !! Z.to_nat base) as [x|] eqn:Ex;
    [|apply lookup_ge_None in Ex; lia].
  rewrite (nth_lookup_Some _ _ _ _ Ex).
  destruct (a !! S (Z.to_nat base)) as [y|] eqn:Ey; simpl.
  - rewrite (nth_lookup_Some _ _ _ _ Ey).
    destruct (Qeq_bool _ 0) eqn:E; simpl.
    + apply Qeq_bool_iff in E. split; [intros Hnz; by destruct Hnz|done].
    + split; [reflexivity|]. intros Hz. apply Qeq_bool_neq in E. by destruct E.
  - apply lookup_ge_None in Ey.
    rewrite (nth_overflow a 0%Q (n := S (Z.to_nat base))) by lia.
    assert (base = Z.of_nat (length a) - 1)%Z as Eb by lia.
    rewrite (Hrest Eb). split; [intros _; ring|done].
Qed.

End QuantileFacts.

Section QuantileOrder.
Import Stats.
Local Open Scope Q_scope.

Lemma Qle_bool_total (x y : Q) : Qle_bool x y = false → Qle_bool y x = true.
Proof.
  intros H. apply Qle_bool_iff. apply Qlt_le_weak, Qnot_le_lt.
  intros Hle. apply Qle_bool_iff in Hle. congruence.
Qed.

Lemma Qle_bool_trans (x y z : Q) :
  Qle_bool x y = true → Qle_bool y z = true → Qle_bool x z = true.
Proof. rewrite !Qle_bool_iff. apply Qle_trans. Qed.

(** The copy that [quantiles] works on is the input in ascending order. *)
Lemma sort_numbers_sorted (arr : list Q) : StronglySorted Qle (sort_numbers arr).
Proof.
  pose proof (Sort.sort_sorted Qle_bool Qle_bool_total Qle_bool_trans arr) as H.
  unfold sort_numbers. induction H as [|x l _ IH Hx]; constructor; [done|].
  eapply Forall_impl; [exact Hx|]. intros y. apply Qle_bool_iff.
Qed.

Lemma sort_numbers_perm (arr : list Q) : sort_numbers arr ≡ₚ arr.
Proof. apply Sort.sort_perm. Qed.

Lemma sorted_lookup_le (a : list Q) (i j : nat) (x y : Q) :
  StronglySorted Qle a → (i <= j)%nat → a !! i = Some x → a !! j = Some y → x <= y.
Proof.
  intros Hs. revert i j. induction Hs as [|z a Hs IH Hz]; intros i j Hij Hi Hj.
  { by rewrite lookup_nil in Hi. }
  destruct i as [|i], j as [|j]; simpl in *; try lia.
  - injection Hi as <-. injection Hj as <-. apply Qle_refl.
  - injection Hi as <-. rewrite Forall_forall in Hz. apply Hz.
    by eapply list_elem_of_lookup_2.
  - eapply IH; [|done..]. lia.
Qed.

(** On a sorted list [q] lies between the value at the lower index and
    the next one. *)
Lemma q_between (a : list Q) (p : Q) :
  StronglySorted Qle a → a ≠ [] → 0 <= p → p <= 1 →
  let base := Z.to_nat (Qfloor (inject_Z (Z.of_nat (length a) - 1) * p)) in
  ∃ x, a !! base = Some x ∧ x <= q a p
    ∧ ∀ y, a !! S base = Some y → q a p <= y.
Proof.
  intros Hs Ha Hp0 Hp1.
  assert (0 < length a)%nat as Hlen by (destruct a; [done|simpl; lia]).
  destruct (position_bounds _ p Hlen Hp0 Hp1) as (H0 & H1 & _).
  unfold q. assert ((length a =? 0)%nat = false) as -> by (apply Nat.eqb_neq; lia).
  set (pos := inject_Z (Z.of_nat (length a) - 1) * p) in *.
  pose proof (Qfloor_le pos) as Hfl. pose proof (Qlt_floor pos) as Hfu.
  unfold at_. destruct (Z.ltb_spec (Qfloor pos) 0); [lia|].
  destruct (Z.ltb_spec (Qfloor pos + 1) 0); [lia|].
  replace (Z.to_nat (Qfloor pos + 1)) with (S (Z.to_nat (Qfloor pos))) by lia.
  cbn zeta. destruct (a !! Z.to_nat (Qfloor pos)) as [x|] eqn:Ex;
    [|apply lookup_ge_None in Ex; lia].
  exists x. split; [done|].
  destruct (a !! S (Z.to_nat (Qfloor pos))) as [y|] eqn:Ey;
    unfold interpolate, or_else.
  - assert (x <= y) as Hxy by (eapply (sorted_lookup_le a); [done| |done..]; lia).
    set (rest := pos - inject_Z (Qfloor pos)).
    rewrite inject_Z_plus in Hfu. change (inject_Z 1) with 1 in Hfu.
    assert (0 <= rest) as Hr0 by (unfold rest; lra).
    assert (rest <= 1) as Hr1 by (unfold rest; lra).
    assert (0 <= (y - x) * rest) as Hm0 by (apply Qmult_le_0_compat; lra).
    assert ((y - x) * rest <= (y - x) * 1) as Hm1.
    { apply Qmult_le_compat_nonneg; split; try done; lra. }
    assert (x <= x + (y - x) * rest) as Hlo by lra.
    assert (x + (y - x) * rest <= y) as Hhi by lra.
    destruct (Qeq_bool (x + (y - x) * rest) 0); cbn [from_option id].
    + split; [apply Qle_refl|]. by intros ? [= <-].
    + split; [done|]. by intros ? [= <-].
  - cbn [from_option id]. split; [apply Qle_refl|]. done.
Qed.

Lemma floor_quarter (z : Z) : Qfloor (inject_Z z * (1 # 4)) = (z / 4)%Z.
Proof. unfold Qfloor, Qmult, inject_Z. simpl. by rewrite Z.mul_1_r. Qed.

Lemma floor_three_quarters (z : Z) : Qfloor (inject_Z z * (3 # 4)) = (z * 3 / 4)%Z.
Proof. unfold Qfloor, Qmult, inject_Z. simpl. done. Qed.

(** With five values or more the first quartile is at most the third. *)
Lemma quartiles_ordered (arr : list Q) :
  (5 <= length arr)%nat → q1 (quantiles arr) <= q3 (quantiles arr).
Proof.
  intros Hlen. unfold quantiles. cbn [q1 q3].
  pose proof (sort_numbers_sorted arr) as Hs.
  assert (length (sort_numbers arr) = length arr) as Hl by apply Sort.sort_length.
  set (a := sort_numbers arr) in *.
  assert (a ≠ []) as Ha by (destruct a; [simpl in Hl; lia|done]).
  destruct (q_between a (1 # 4) Hs Ha) as (x1 & Hx1 & _ & Hup); [done..|].
  destruct (q_between a (3 # 4) Hs Ha) as (x3 & Hx3 & Hlow & _); [done..|].
  rewrite floor_quarter in Hx1, Hup. rewrite floor_three_quarters in Hx3.
  set (z := (Z.of_nat (length a) - 1)%Z) in *.
  assert (S (Z.to_nat (z / 4)) <= Z.to_nat (z * 3 / 4))%nat as Hidx.
  { unfold z. rewrite Hl. Z.to_euclidean_division_equations. lia. }
  destruct (a !! S (Z.to_nat (z / 4))) as [y|] eqn:Ey.
  - specialize (Hup y eq_refl).
    pose proof (sorted_lookup_le a _ _ y x3 Hs Hidx Ey Hx3). lra.
  - apply lookup_ge_None in Ey. apply lookup_lt_Some in Hx3. lia.
Qed.

Lemma clip_within (lo hi v : Q) : lo <= hi → lo <= clip lo hi v ∧ clip lo hi v <= hi.
Proof.
  intros Hlh. unfold clip, Qltb.
  destruct (Qle_bool lo v) eqn:E1; simpl.
  - apply Qle_bool_iff in E1. destruct (Qle_bool v hi) eqn:E2; simpl.
    + apply Qle_bool_iff in E2. done.
    + split; [done|apply Qle_refl].
  - split; [apply Qle_refl|done].
Qed.

(** With five values or more, every value that [winsorize] returns lies
    within the bounds computed from its argument. *)
Lemma winsorize_within (arr : list Q) (x : Q) :
  (5 <= length arr)%nat → x ∈ winsorize arr →
  (fences arr).1 <= x ∧ x <= (fences arr).2.
Proof.
  intros Hlen Hx. pose proof (quartiles_ordered arr Hlen) as Hq.
  unfold winsorize in Hx.
  destruct (Nat.ltb_spec (length arr) 5) as [?|_]; [lia|].
  unfold fences in *. cbn [fst snd] in *.
  apply list_elem_of_fmap in Hx as (v & -> & _).
  apply clip_within. lra.
Qed.

End QuantileOrder.

(** C1.  On [-1, 1] the interpolated median is zero, and [quantiles]
    returns the lower neighbour [-1] instead: a zero result of the
    interpolation is taken for a missing one. *)
Theorem quantiles_zero_interpolation :
  let arr := [inject_Z (-1); inject_Z 1] in
  (Spec.r7 arr (1 # 2) == 0)%Q
  ∧ (Stats.q2 (Stats.quantiles arr) == -1)%Q
  ∧ ¬ (Stats.q2 (Stats.quantiles arr) == Spec.r7 arr (1 # 2))%Q.
Proof.
  simpl. split; [reflexivity|]. split; [reflexivity|]. intros H. vm_compute in H. discriminate.
Qed.

(** ** The column cleaner, column by column *)

(** The cells of column [k], top to bottom. *)
Definition column (k : string) (rws : list Row) : list value :=
  fmap (λ rr, get rr k) rws.

Section CleaningFacts.
Context (rt : runtime).
Implicit Types (rws out : list Row) (col : Column) (k : string)
  (medians : gmap string Q) (modes : gmap string value).

(** What phase 2 does to the cells of one column. *)
Definition clean_column medians modes col (cells : list value) : list value :=
  match type col with
  | numeric =>
      fmap (λ c, VNum (Fin c))
        (Stats.winsorize
           (fmap (λ v, default (numeric_fill medians (name col)) (toNumber rt v)) cells))
  | datetime => fmap (clean_datetime rt) cells
  | boolean => fmap (clean_boolean rt (modes !! name col)) cells
  | categorical | text => fmap (clean_text rt (text_fill modes (name col))) cells
  | other => cells
  end.

Lemma winsorize_length (arr : list Q) : length (Stats.winsorize arr) = length arr.
Proof.
  unfold Stats.winsorize. destruct (length arr <? 5)%nat; [done|].
  destruct (Stats.fences arr). by rewrite length_fmap.
Qed.

Lemma converted_length median out k : length (converted rt median out k) = length out.
Proof. unfold converted. by rewrite length_fmap. Qed.

Lemma zip_write_other k k' (f : Q → value) out (cs : list Q) :
  k ≠ k' → length out = length cs →
  fmap (λ rr : Row, rr !! k') (zip_with (λ rr c, <[k := f c]> rr) out cs)
  = fmap (λ rr : Row, rr !! k') out.
Proof.
  intros Hne. revert cs. induction out as [|rr out IH]; intros [|c cs] Hlen;
    simpl in *; try done.
  rewrite lookup_insert_ne by done. f_equal. apply IH. lia.
Qed.

Lemma zip_write_self k (f : Q → value) out (cs : list Q) :
  length out = length cs →
  column k (zip_with (λ rr c, <[k := f c]> rr) out cs) = fmap f cs.
Proof.
  revert cs. induction out as [|rr out IH]; intros [|c cs] Hlen;
    simpl in *; try done.
  unfold get at 1. rewrite lookup_insert_eq. simpl. f_equal. apply IH. lia.
Qed.

Lemma transform_rows_length medians modes out col :
  length (transform_rows rt medians modes out col) = length out.
Proof.
  unfold transform_rows. destruct (type col); rewrite ?length_fmap; try done.
  rewrite length_zip_with, winsorize_length, converted_length. lia.
Qed.

(** Phase 2 for [col] writes the key [name col] only. *)
Lemma transform_rows_other medians modes out col k :
  name col ≠ k →
  fmap (λ rr : Row, rr !! k) (transform_rows rt medians modes out col)
  = fmap (λ rr : Row, rr !! k) out.
Proof.
  intros Hne. unfold transform_rows.
  destruct (type col).
  - apply zip_write_other; [done|].
    by rewrite winsorize_length, converted_length.
  - rewrite <- list_fmap_compose. apply list_fmap_ext. intros ? rr _. simpl.
    by rewrite lookup_insert_ne.
  - rewrite <- list_fmap_compose. apply list_fmap_ext. intros ? rr _. simpl.
    by rewrite lookup_insert_ne.
  - rewrite <- list_fmap_compose. apply list_fmap_ext. intros ? rr _. simpl.
    by rewrite lookup_insert_ne.
  - rewrite <- list_fmap_compose. apply list_fmap_ext. intros ? rr _. simpl.
    by rewrite lookup_insert_ne.
  - done.
Qed.

(** Phase 2 for [col] reads the key [name col] only. *)
Lemma transform_rows_self medians modes out col :
  column (name col) (transform_rows rt medians modes out col)
  = clean_column medians modes col (column (name col) out).
Proof.
  unfold transform_rows, clean_column.
  destruct (type col); [| unfold column..].
  - rewrite zip_write_self by (by rewrite winsorize_length, converted_length).
    unfold converted, column. by rewrite <- list_fmap_compose.
  - rewrite <- !list_fmap_compose. apply list_fmap_ext. intros ? rr _. simpl.
    unfold get at 1. by rewrite lookup_insert_eq.
  - rewrite <- !list_fmap_compose. apply list_fmap_ext. intros ? rr _. simpl.
    unfold get at 1. by rewrite lookup_insert_eq.
  - rewrite <- !list_fmap_compose. apply list_fmap_ext. intros ? rr _. simpl.
    unfold get at 1. by rewrite lookup_insert_eq.
  - rewrite <- !list_fmap_compose. apply list_fmap_ext. intros ? rr _. simpl.
    unfold get at 1. by rewrite lookup_insert_eq.
  - done.
Qed.

Lemma column_lookup k rws1 rws2 :
  fmap (λ rr : Row, rr !! k) rws1 = fmap (λ rr : Row, rr !! k) rws2 →
  column k rws1 = column k rws2.
Proof.
  unfold column. intros E.
  change (λ rr : Row, get rr k) with (default VUndefined ∘ (λ rr : Row, rr !! k)).
  by rewrite !list_fmap_compose, E.
Qed.

Lemma fold_transform medians modes cols out rep :
  fold_left (transform rt medians modes) cols (out, rep)
  = (fold_left (transform_rows rt medians modes) cols out,
     rep ++ omap (report_line rt medians modes) cols).
Proof.
  revert out rep. induction cols as [|c cols IH]; intros out rep.
  - simpl. by rewrite app_nil_r.
  - change (c :: cols) with ([c] ++ cols) at 3. rewrite omap_app.
    simpl fold_left. unfold transform at 2. cbn [fst snd]. rewrite IH.
    rewrite <- app_assoc. simpl. by destruct (report_line rt medians modes c).
Qed.

Lemma cleanData_rows rws profile :
  rows (cleanData rt rws profile)
  = fold_left (transform_rows rt (summaries rt rws profile).1 (summaries rt rws profile).2)
      (columns profile) rws.
Proof.
  unfold cleanData. destruct (summaries rt rws profile) as [medians modes].
  by rewrite fold_transform.
Qed.

Lemma cleanData_report rws profile :
  report (cleanData rt rws profile)
  = omap (report_line rt (summaries rt rws profile).1 (summaries rt rws profile).2)
      (columns profile).
Proof.
  unfold cleanData. destruct (summaries rt rws profile) as [medians modes].
  by rewrite fold_transform.
Qed.

(** The report is made of the lines of the columns of a supported type,
    in the order of the profile. *)
Lemma report_lines_reported medians modes cols :
  Forall2 (λ col s, report_line rt medians modes col = Some s)
    (filter (λ col, supported (type col) = true) cols)
    (omap (report_line rt medians modes) cols).
Proof.
  induction cols as [|c cols IH]; [constructor|].
  rewrite filter_cons. change (c :: cols) with ([c] ++ cols). rewrite omap_app.
  destruct (decide (supported (type c) = true)) as [E|E].
  - assert (∃ s, report_line rt medians modes c = Some s) as [s Hs].
    { unfold report_line. destruct (type c); try done; eauto. }
    simpl. rewrite Hs. simpl. by constructor.
  - assert (report_line rt medians modes c = None) as Hn.
    { unfold report_line. by destruct (type c). }
    simpl. by rewrite Hn.
Qed.

Lemma fold_transform_length medians modes cols out :
  length (fold_left (transform_rows rt medians modes) cols out) = length out.
Proof.
  revert out. induction cols as [|c cols IH]; intros out; simpl; [done|].
  by rewrite IH, transform_rows_length.
Qed.

Lemma fold_transform_other medians modes cols out k :
  k ∉ fmap name cols →
  fmap (λ rr : Row, rr !! k) (fold_left (transform_rows rt medians modes) cols out)
  = fmap (λ rr : Row, rr !! k) out.
Proof.
  revert out. induction cols as [|c cols IH]; intros out Hk; simpl; [done|].
  simpl in Hk. apply not_elem_of_cons in Hk as [Hne Hk].
  rewrite IH by done. by apply transform_rows_other.
Qed.

Lemma fold_transform_column medians modes cols out col :
  NoDup (fmap name cols) → col ∈ cols →
  column (name col) (fold_left (transform_rows rt medians modes) cols out)
  = clean_column medians modes col (column (name col) out).
Proof.
  revert out. induction cols as [|c cols IH]; intros out Hnd Hcol; simpl.
  { by apply elem_of_nil in Hcol. }
  simpl in Hnd. apply NoDup_cons in Hnd as [Hc Hnd].
  apply elem_of_cons in Hcol as [->|Hcol].
  - rewrite (column_lookup _ _ _ (fold_transform_other _ _ _ _ _ Hc)).
    apply transform_rows_self.
  - rewrite IH by done. f_equal. apply column_lookup, transform_rows_other.
    intros E. apply Hc. rewrite E. apply list_elem_of_fmap. by exists col.
Qed.

(** With distinct column names, the cleaned cells of a profiled column
    are [clean_column] of its raw cells. *)
Lemma cleanData_column rws profile col :
  NoDup (fmap name (columns profile)) → col ∈ columns profile →
  column (name col) (rows (cleanData rt rws profile))
  = clean_column (summaries rt rws profile).1 (summaries rt rws profile).2 col
      (column (name col) rws).
Proof. intros Hnd Hcol. rewrite cleanData_rows. by apply fold_transform_column. Qed.

(** *** The summaries of phase 1 *)

Lemma summarize_modes_other rws st col k :
  name col ≠ k → (summarize rt rws st col).2 !! k = st.2 !! k.
Proof.
  intros Hne. destruct st as [medians modes]. unfold summarize.
  destruct (type col); simpl; try done.
  - by destruct (length _ =? 0)%nat.
  - destruct (Stats.mode _); simpl; [by rewrite lookup_insert_ne|done].
  - destruct (Stats.mode _); simpl; [by rewrite lookup_insert_ne|done].
  - destruct (Stats.mode _); simpl; [by rewrite lookup_insert_ne|done].
Qed.

Lemma fold_summarize_modes_other rws cols st k :
  k ∉ name <$> cols → (fold_left (summarize rt rws) cols st).2 !! k = st.2 !! k.
Proof.
  revert st. induction cols as [|c cols IH]; intros st Hk; simpl; [done|].
  rewrite fmap_cons in Hk. apply not_elem_of_cons in Hk as [Hne Hk].
  rewrite IH by done. by apply summarize_modes_other.
Qed.

Definition is_textual (ty : ColumnType) : bool :=
  match ty with categorical | text => true | _ => false end.

Lemma summarize_modes_text rws st col :
  is_textual (type col) = true →
  (summarize rt rws st col).2 !! name col
  = match Stats.mode (text_samples rt rws (name col)) with
    | Some m => Some (VStr m)
    | None => st.2 !! name col
    end.
Proof.
  intros Hty. destruct st as [medians modes]. unfold summarize.
  destruct (type col); try done;
    (destruct (Stats.mode _); simpl; [by rewrite lookup_insert_eq|done]).
Qed.

Lemma fold_summarize_modes_text rws cols st0 col :
  NoDup (name <$> cols) → col ∈ cols → is_textual (type col) = true →
  st0.2 !! name col = None →
  (fold_left (summarize rt rws) cols st0).2 !! name col
  = VStr <$> Stats.mode (text_samples rt rws (name col)).
Proof.
  revert st0. induction cols as [|c cols IH]; intros st0 Hnd Hcol Hty Hst0; simpl.
  { by apply elem_of_nil in Hcol. }
  rewrite fmap_cons in Hnd. apply NoDup_cons in Hnd as [Hc Hnd].
  apply elem_of_cons in Hcol as [->|Hcol].
  - rewrite fold_summarize_modes_other by done.
    rewrite summarize_modes_text by done. rewrite Hst0.
    by destruct (Stats.mode _).
  - apply IH; [done..|]. rewrite summarize_modes_other; [done|].
    intros E. apply Hc. rewrite E. apply list_elem_of_fmap. by exists col.
Qed.

Lemma summaries_modes_text rws profile col :
  NoDup (name <$> columns profile) → col ∈ columns profile →
  is_textual (type col) = true →
  (summaries rt rws profile).2 !! name col
  = VStr <$> Stats.mode (text_samples rt rws (name col)).
Proof.
  intros. unfold summaries. by apply fold_summarize_modes_text.
Qed.

Lemma mode_elem {T : Type} `{EqDecision T} (arr : list T) (r : T) :
  Stats.mode arr = Some r → r ∈ arr.
Proof.
  intros Hr. destruct arr as [|a arr]; [done|].
  destruct (mode_first_max (a :: arr)) as (r' & Hr' & Hin & _); [done|].
  congruence.
Qed.

(** The value that fills the missing cells of a text column is never
    the empty string. *)
Lemma text_fill_not_empty rws profile col :
  NoDup (name <$> columns profile) → col ∈ columns profile →
  is_textual (type col) = true →
  text_fill (summaries rt rws profile).2 (name col) ≠ VStr EmptyString.
Proof.
  intros Hnd Hcol Hty. unfold text_fill.
  rewrite summaries_modes_text by done.
  destruct (Stats.mode _) as [m|] eqn:Em; simpl; [|done].
  apply mode_elem in Em. unfold text_samples in Em.
  apply list_elem_of_filter in Em as [Hne _]. congruence.
Qed.

(** A blank cell does not take part in the mode of its column: the
    samples are those of the table with that cell set to null. *)
Lemma text_samples_blank rws i rr k s :
  rws !! i = Some rr → get rr k = VStr s → JSString.blank s →
  text_samples rt (<[i := <[k := VNull]> rr]> rws) k = text_samples rt rws k.
Proof.
  intros Hi Hget [Hne Htrim]. unfold text_samples.
  rewrite insert_take_drop by (by eapply lookup_lt_Some).
  rewrite <- (take_drop_middle rws i rr Hi) at 3.
  rewrite !omap_app, !filter_app. f_equal.
  change (<[k:=VNull]> rr :: drop (S i) rws) with ([<[k:=VNull]> rr] ++ drop (S i) rws).
  change (rr :: drop (S i) rws) with ([rr] ++ drop (S i) rws).
  rewrite !omap_app, !filter_app. f_equal. simpl.
  unfold get at 1 2. rewrite lookup_insert_eq. simpl.
  rewrite Hget. simpl. destruct s as [|c s]; [done|].
  rewrite Htrim. rewrite filter_cons.
  destruct (decide (EmptyString ≠ EmptyString)); done.
Qed.

End CleaningFacts.

(** ** Example tables *)

Module Examples.

Definition single (ty : ColumnType) : DatasetProfile :=
  {| columns := [ {| name := "x"; type := ty |} ] |}.

(** One row per cell, each with the single key ["x"]. *)
Definition table (cells : list value) : list Row :=
  (λ v, {[ "x" := v ]}) <$> cells.

Definition num (z : Z) : value := VNum (Fin (inject_Z z)).

Definition dates : list value :=
  [VStr "2023-01-01T00:00:00.000Z"; VStr "not-a-date"; VNull].

Definition names : list value :=
  [VStr " Alice"; VStr "   "; VStr "alice"; VNull].

Definition skewed : list value :=
  [num (-1); num (-1); num 1; num 1; num 1; num 100; VNull].

Definition lopsided : list value :=
  [num (-8); num (-8); num (-3); num (-3); num (-3); num (-3); num (-1); num 0].

End Examples.

(** ** The cleaned table *)

(** C4.  In a datetime column (of a profile with distinct column names)
    the cleaned cell is the string [normalizeDate] returns for the raw
    cell, and the raw cell itself when [normalizeDate] returns missing. *)
Theorem datetime_cell_normalized_or_kept (rt : runtime) (rws : list Row)
    (profile : DatasetProfile) (col : Column) (i : nat) (rr : Row) :
  NoDup (name <$> columns profile) →
  col ∈ columns profile →
  type col = datetime →
  rws !! i = Some rr →
  ∃ rr', rows (cleanData rt rws profile) !! i = Some rr'
    ∧ get rr' (name col)
      = match normalizeDate rt (get rr (name col)) with
        | Some s => VStr s
        | None => get rr (name col)
        end.
Proof.
  intros Hnd Hcol Hty Hi.
  pose proof (cleanData_column rt rws profile col Hnd Hcol) as Hc.
  unfold clean_column in Hc. rewrite Hty in Hc.
  apply (f_equal (λ l, l !! i)) in Hc. unfold column in Hc.
  rewrite !list_lookup_fmap, Hi in Hc. simpl in Hc.
  destruct (rows (cleanData rt rws profile) !! i) as [rr'|] eqn:E; [|done].
  exists rr'. split; [done|]. simpl in Hc. by injection Hc.
Qed.

Lemma datetime_cell_normalized_or_kept_witness :
  ∃ rr', rows (cleanData Reference.rt (Examples.table Examples.dates)
                 (Examples.single datetime)) !! 1%nat = Some rr'
    ∧ get rr' "x" = VStr "not-a-date".
Proof.
  refine (datetime_cell_normalized_or_kept Reference.rt
            (Examples.table Examples.dates) (Examples.single datetime)
            {| name := "x"; type := datetime |} 1 {[ "x" := VStr "not-a-date" ]} _ _ _ _).
  - simpl. apply NoDup_singleton.
  - simpl. apply list_elem_of_singleton. reflexivity.
  - reflexivity.
  - reflexivity.
Defined.

(** C7, amended.  The report has one entry per column of the profile
    whose type is one of the five that [cleanData] has a branch for, in the
    order of the profile, and the [i]-th entry is the line of the [i]-th
    such column: it begins with that column's name.  A column of another
    type has no entry. *)
Theorem report_one_line_per_supported_column (rt : runtime) (rws : list Row)
    (profile : DatasetProfile) :
  length (report (cleanData rt rws profile)) = length (reported profile)
  ∧ ∀ i col, reported profile !! i = Some col →
      ∃ body, report (cleanData rt rws profile) !! i
              = Some (name col +:+ ": " +:+ body).
Proof.
  rewrite cleanData_report. unfold reported.
  pose proof (report_lines_reported rt (summaries rt rws profile).1
                (summaries rt rws profile).2 (columns profile)) as Hlines.
  split; [symmetry; by eapply Forall2_length|].
  intros i col Hi.
  destruct (Forall2_lookup_l _ _ _ _ _ Hlines Hi) as (s & -> & Hs).
  unfold report_line in Hs. destruct (type col); try done;
    injection Hs as <-; eexists; reflexivity.
Qed.

Module Unsupported.

(** A profile whose first column has a type that is none of the five. *)
Definition profile : DatasetProfile :=
  {| columns := [ {| name := "id"; type := other |}; {| name := "x"; type := text |} ] |}.

Definition rws : list Row :=
  [ {[ "id" := VStr " 7 "; "x" := VStr " a " ]}; {[ "x" := VNull ]} ].

End Unsupported.

(** C7 as stated fails: a profile of two columns, the first of a type that
    is none of the five, gives a report of one line, the line of the
    second column. *)
Lemma report_skips_unsupported_column :
  length (columns Unsupported.profile) = 2%nat
  ∧ report (cleanData Reference.rt Unsupported.rws Unsupported.profile)
    = ["x: trimmed text and filled missing with 'a'"]
  ∧ length (report (cleanData Reference.rt Unsupported.rws Unsupported.profile))
    ≠ length (columns Unsupported.profile).
Proof. split; [reflexivity|]. split; [reflexivity|]. discriminate. Qed.

(** C10.  In a categorical or text column (of a profile with distinct
    column names) a cell that holds a non-empty string of white space is
    cleaned to the empty string, not to the fill value of the column, which
    is never empty; phase 1 leaves the cell out of the samples whose mode
    is the fill value. *)
Theorem blank_text_cell_becomes_empty (rt : runtime) (rws : list Row)
    (profile : DatasetProfile) (col : Column) (i : nat) (rr : Row) (s : string) :
  NoDup (name <$> columns profile) →
  col ∈ columns profile →
  type col = categorical ∨ type col = text →
  rws !! i = Some rr →
  get rr (name col) = VStr s →
  JSString.blank s →
  column (name col) (rows (cleanData rt rws profile)) !! i = Some (VStr EmptyString)
  ∧ text_fill (summaries rt rws profile).2 (name col) ≠ VStr EmptyString
  ∧ text_samples rt (<[i := <[name col := VNull]> rr]> rws) (name col)
    = text_samples rt rws (name col).
Proof.
  intros Hnd Hcol Hty Hi Hget Hblank.
  assert (is_textual (type col) = true) as Htext by (by destruct Hty as [-> | ->]).
  split; [|split].
  - rewrite cleanData_column by done. unfold clean_column.
    assert (∀ m, clean_text rt m (VStr s) = VStr EmptyString) as Hclean.
    { intros m. unfold clean_text. destruct Hblank as [Hne Htrim].
      destruct s; [done|]. simpl. by rewrite Htrim. }
    destruct Hty as [-> | ->]; unfold column;
      by rewrite !list_lookup_fmap, Hi; simpl; rewrite Hget, Hclean.
  - by apply text_fill_not_empty.
  - by eapply text_samples_blank.
Qed.

Lemma blank_text_cell_becomes_empty_witness :
  column "x" (rows (cleanData Reference.rt (Examples.table Examples.names)
                      (Examples.single text))) !! 1%nat = Some (VStr EmptyString)
  ∧ text_fill (summaries Reference.rt (Examples.table Examples.names)
                 (Examples.single text)).2 "x" ≠ VStr EmptyString
  ∧ text_samples Reference.rt
      (<[1%nat := <["x" := VNull]> {[ "x" := VStr "   " ]}]> (Examples.table Examples.names)) "x"
    = text_samples Reference.rt (Examples.table Examples.names) "x".
Proof.
  apply (blank_text_cell_becomes_empty Reference.rt (Examples.table Examples.names)
           (Examples.single text) {| name := "x"; type := text |} 1
           {[ "x" := VStr "   " ]} "   ").
  - simpl. apply NoDup_singleton.
  - simpl. apply list_elem_of_singleton. reflexivity.
  - right. reflexivity.
  - reflexivity.
  - reflexivity.
  - split; [discriminate|reflexivity].
Defined.

(** C3.  A text cell that holds one space is cleaned to the empty string:
    phase 2 tests for the empty string before it trims, where phase 1
    trims first. *)
Theorem blank_text_cell_left_empty (rt : runtime) :
  column "x" (rows (cleanData rt (Examples.table [VStr " "]) (Examples.single text)))
  = [VStr EmptyString].
Proof. reflexivity. Qed.

(** C2.  The column [-1, -1, 1, 1, 1, 100, null] has six valid samples,
    whose quartiles give the upper bound [13/4]; the cleaned cell of the
    sixth row is [4]. *)
Theorem winsorized_cell_outside_sample_fences (rt : runtime) :
  let rws := Examples.table Examples.skewed in
  let samples := numeric_samples rt rws "x" in
  samples = inject_Z <$> [-1; -1; 1; 1; 1; 100]
  ∧ ((Stats.fences samples).1 == - (11 # 4))%Q
  ∧ ((Stats.fences samples).2 == 13 # 4)%Q
  ∧ ∃ x, column "x" (rows (cleanData rt rws (Examples.single numeric))) !! 5%nat
         = Some (VNum (Fin x))
       ∧ (x == 4)%Q ∧ ¬ (x <= (Stats.fences samples).2)%Q.
Proof.
  split; [reflexivity|]. split; [reflexivity|]. split; [reflexivity|].
  eexists. split; [vm_compute; reflexivity|]. split; [reflexivity|].
  intros H. vm_compute in H. by apply H.
Qed.

(** ** [normalizeDate] *)

Section DateFacts.
Import JSDate JSString.

Lemma digit_zero (d : Z) : 0 <= d <= 9 → digit d = "0"%char → d = 0.
Proof.
  intros Hd H.
  assert (d = 0 ∨ d = 1 ∨ d = 2 ∨ d = 3 ∨ d = 4 ∨ d = 5 ∨ d = 6 ∨ d = 7 ∨ d = 8 ∨ d = 9)
    as Hcases by lia.
  repeat (destruct Hcases as [-> | Hcases]; [first [done | discriminate H] |]).
  subst. discriminate H.
Qed.

Lemma pad2_zero (n : Z) : 0 <= n < 100 → pad2 n = "00" → n = 0.
Proof.
  intros Hn H. unfold pad2 in H. injection H as H1 H0.
  apply digit_zero in H1; [|pose proof (Z.mod_pos_bound (n / 10) 10); lia].
  apply digit_zero in H0; [|pose proof (Z.mod_pos_bound n 10); lia].
  rewrite Z.mod_small in H1; [|split; [apply Z.div_pos; lia|apply Z.div_lt_upper_bound; lia]].
  pose proof (Z.div_mod n 10). lia.
Qed.

Lemma time_fields_range (t : Z) :
  0 <= HourFromTime t < 100 ∧ 0 <= MinFromTime t < 100 ∧ 0 <= SecFromTime t < 100.
Proof.
  unfold HourFromTime, MinFromTime, SecFromTime, TimeWithinDay, msPerDay.
  pose proof (Z.mod_pos_bound t 86400000).
  pose proof (Z.mod_pos_bound (t mod 86400000 / 60000) 60).
  pose proof (Z.mod_pos_bound (t mod 86400000 / 1000) 60).
  split; [|lia]. split; [apply Z.div_pos; lia|apply Z.div_lt_upper_bound; lia].
Qed.

Lemma time_string_midnight (t : Z) :
  time_string t = "00:00:00"
  ↔ HourFromTime t = 0 ∧ MinFromTime t = 0 ∧ SecFromTime t = 0.
Proof.
  destruct (time_fields_range t) as (Hh & Hm & Hs). unfold time_string. split.
  - unfold pad2 at 1 2 3. simpl. intros H.
    injection H as h1 h0 m1 m0 s1 s0.
    repeat split; apply pad2_zero; try done; unfold pad2; congruence.
  - intros (-> & -> & ->). reflexivity.
Qed.

(** With a four-digit year the ISO string is the date, a [T], the time
    of day to the second, and the milliseconds. *)
Lemma toISOString_slices (t : Z) :
  0 <= YearFromTime t <= 9999 →
  slice 11 19 (toISOString t) = time_string t
  ∧ slice 0 10 (toISOString t) = date_string t
  ∧ String.length (date_string t) = 10%nat
  ∧ String.length (toISOString t) = 24%nat.
Proof.
  unfold YearFromTime, toISOString, date_string.
  destruct (civil_from_days (Day t)) as [[y m] d]. simpl. intros Hy.
  unfold year_string.
  assert ((0 <=? y) && (y <=? 9999) = true) as ->.
  { apply andb_true_intro. split; apply Z.leb_le; lia. }
  repeat split.
Qed.

End DateFacts.

(** C8, amended.  For a value that [normalizeDate] parses to an instant
    whose UTC year has four digits, the result is the date-only string
    exactly when the hour, the minute and the second of the UTC time of day
    are zero (the milliseconds are not looked at), and the full timestamp
    otherwise. *)
Theorem normalizeDate_date_only_iff_hms_zero (rt : runtime) (v : value) (t : Z) :
  normalizeDate rt v ≠ None →
  date_value rt v = Some t →
  0 <= JSDate.YearFromTime t <= 9999 →
  (normalizeDate rt v = Some (JSDate.date_string t)
   ↔ JSDate.HourFromTime t = 0 ∧ JSDate.MinFromTime t = 0 ∧ JSDate.SecFromTime t = 0)
  ∧ (normalizeDate rt v ≠ Some (JSDate.date_string t)
     → normalizeDate rt v = Some (JSDate.toISOString t))
  ∧ String.length (JSDate.date_string t) = 10%nat
  ∧ String.length (JSDate.toISOString t) = 24%nat.
Proof.
  intros Hok Hd Hy. unfold normalizeDate in *.
  destruct (nullish v || is_empty_string v); [done|]. rewrite Hd. clear Hok.
  destruct (toISOString_slices t Hy) as (Htime & Hdate & Hlen10 & Hlen24).
  rewrite Htime, Hdate.
  assert (JSDate.toISOString t ≠ JSDate.date_string t) as Hne.
  { intros E. rewrite E in Hlen24. congruence. }
  rewrite <- time_string_midnight.
  destruct (String.eqb_spec (JSDate.time_string t) "00:00:00") as [E|E].
  - repeat split; try done.
  - repeat split; try done. intros [= ?]. done.
Qed.

Lemma normalizeDate_date_only_iff_hms_zero_witness :
  (normalizeDate Reference.rt (VStr "2023-01-01T00:00:00.000Z")
     = Some (JSDate.date_string 1672531200000)
   ↔ JSDate.HourFromTime 1672531200000 = 0 ∧ JSDate.MinFromTime 1672531200000 = 0
     ∧ JSDate.SecFromTime 1672531200000 = 0)
  ∧ (normalizeDate Reference.rt (VStr "2023-01-01T00:00:00.000Z")
       ≠ Some (JSDate.date_string 1672531200000)
     → normalizeDate Reference.rt (VStr "2023-01-01T00:00:00.000Z")
       = Some (JSDate.toISOString 1672531200000))
  ∧ String.length (JSDate.date_string 1672531200000) = 10%nat
  ∧ String.length (JSDate.toISOString 1672531200000) = 24%nat.
Proof.
  apply (normalizeDate_date_only_iff_hms_zero Reference.rt
           (VStr "2023-01-01T00:00:00.000Z") 1672531200000).
  - vm_compute. discriminate.
  - vm_compute. reflexivity.
  - vm_compute. split; discriminate.
Defined.

(** C8 as stated fails in both directions: at half a second past
    midnight the result is the date-only string although the time of day
    is not zero, and at midnight of 1 January 10000, where the ISO string
    has a sign and six year digits, the result is the full timestamp. *)
Lemma normalizeDate_date_only_not_iff_midnight :
  (date_value Reference.rt (VDate (Some 500)) = Some 500
   ∧ ¬ (normalizeDate Reference.rt (VDate (Some 500)) = Some (JSDate.date_string 500)
        ↔ JSDate.TimeWithinDay 500 = 0))
  ∧ (date_value Reference.rt (VDate (Some 253402300800000)) = Some 253402300800000
     ∧ ¬ (normalizeDate Reference.rt (VDate (Some 253402300800000))
            = Some (JSDate.date_string 253402300800000)
          ↔ JSDate.TimeWithinDay 253402300800000 = 0)).
Proof.
  split; (split; [reflexivity|]).
  - intros [H _]. specialize (H eq_refl). discriminate H.
  - intros [_ H]. specialize (H eq_refl). vm_compute in H. discriminate H.
Qed.

(** ** Cleaning the cleaned table again *)

(** A cell of the cleaned table that a second run has no reason to touch:
    a number inside the bounds that [winsorize] computes from the cleaned
    column (or any number when the table has fewer than five rows), a
    string that [normalizeDate] maps to itself, a non-empty trimmed
    string.  Nothing is said of boolean columns, nor of columns of another
    type, which no run touches. *)
Definition settled (rt : runtime) (once : list Row) (col : Column) (c : value) : Prop :=
  match type col with
  | numeric =>
      ∃ x, c = VNum (Fin x)
        ∧ ((length once < 5)%nat
           ∨ let '(lo, hi) := Stats.fences (numeric_samples rt once (name col)) in
             (lo <= x)%Q ∧ (x <= hi)%Q)
  | datetime => ∃ s, c = VStr s ∧ normalizeDate rt c = Some s
  | boolean | other => False
  | categorical | text =>
      ∃ s, c = VStr s ∧ s ≠ EmptyString ∧ JSString.trim s = s
  end.

Section RerunFacts.
Context (rt : runtime).

Lemma numeric_samples_numbers (out : list Row) (k : string) (ys : list Q) :
  column k out = (λ y, VNum (Fin y)) <$> ys → numeric_samples rt out k = ys.
Proof.
  unfold column, numeric_samples. revert ys.
  induction out as [|rr out IH]; intros [|y ys] E; simpl in *; try done.
  injection E as E1 E2. rewrite E1. simpl. f_equal. by apply IH.
Qed.

Lemma converted_numbers (median : Q) (ys : list Q) :
  (λ v, default median (toNumber rt v)) <$> ((λ y, VNum (Fin y)) <$> ys) = ys.
Proof.
  induction ys as [|y ys IH]; [done|].
  rewrite !fmap_cons. by rewrite IH.
Qed.

Lemma clip_inside (lo hi x : Q) : (lo <= x)%Q → (x <= hi)%Q → Stats.clip lo hi x = x.
Proof.
  intros Hlo Hhi. unfold Stats.clip, Qltb.
  apply Qle_bool_iff in Hlo, Hhi. by rewrite Hlo, Hhi.
Qed.

Lemma winsorize_inside (ys : list Q) (i : nat) (x : Q) :
  ys !! i = Some x →
  (length ys < 5)%nat
  ∨ (let '(lo, hi) := Stats.fences ys in (lo <= x)%Q ∧ (x <= hi)%Q) →
  Stats.winsorize ys !! i = Some x.
Proof.
  intros Hi Hx. unfold Stats.winsorize.
  destruct (Nat.ltb_spec (length ys) 5) as [Hlt|Hge]; [done|].
  destruct Hx as [Hx|Hx]; [lia|].
  destruct (Stats.fences ys) as [lo hi]. destruct Hx as [Hlo Hhi].
  rewrite list_lookup_fmap, Hi. simpl. by rewrite clip_inside.
Qed.

(** With distinct column names and five rows or more, every cleaned cell
    of a numeric column is a number within the bounds that [winsorize]
    computes from the column after imputation. *)
Lemma numeric_cells_within_imputed_fences (rws : list Row) (profile : DatasetProfile)
    (col : Column) (c : value) :
  NoDup (name <$> columns profile) → col ∈ columns profile → type col = numeric →
  (5 <= length rws)%nat →
  c ∈ column (name col) (rows (cleanData rt rws profile)) →
  let imputed :=
    converted rt (numeric_fill (summaries rt rws profile).1 (name col)) rws (name col) in
  ∃ x, c = VNum (Fin x)
    ∧ ((Stats.fences imputed).1 <= x)%Q ∧ (x <= (Stats.fences imputed).2)%Q.
Proof.
  intros Hnd Hcol Hty Hlen Hc imputed.
  rewrite cleanData_column in Hc by done. unfold clean_column in Hc.
  rewrite Hty in Hc. apply list_elem_of_fmap in Hc as (x & -> & Hx).
  exists x. split; [done|].
  assert ((λ v, default (numeric_fill (summaries rt rws profile).1 (name col))
                  (toNumber rt v)) <$> column (name col) rws = imputed) as E.
  { unfold imputed, converted, column. by rewrite <- list_fmap_compose. }
  rewrite E in Hx. apply winsorize_within; [|done].
  unfold imputed. by rewrite converted_length.
Qed.

Lemma numeric_samples_length (rws : list Row) (k : string) :
  (length (numeric_samples rt rws k) <= length rws)%nat.
Proof.
  unfold numeric_samples. induction rws as [|rr rws IH]; simpl; [done|].
  change (list_omap Row Q ?f rws) with (omap f rws).
  destruct (toNumber rt (get rr k)); simpl; lia.
Qed.

(** Where no cell is missing, the column after imputation is the list of
    the samples. *)
Lemma converted_no_missing (median : Q) (rws : list Row) (k : string) :
  length (numeric_samples rt rws k) = length rws →
  converted rt median rws k = numeric_samples rt rws k.
Proof.
  unfold converted, numeric_samples.
  induction rws as [|rr rws IH]; [done|]. rewrite fmap_cons. simpl.
  destruct (toNumber rt (get rr k)) as [x|]; simpl.
  - intros [= E]. by rewrite IH.
  - intros E. pose proof (numeric_samples_length rws k) as Hle.
    unfold numeric_samples in Hle.
    change (list_omap Row Q ?f rws) with (omap f rws) in E. lia.
Qed.

(** So where the table has five rows or more and no cell of the column is
    missing, the cleaned cells lie within the bounds computed from the
    samples. *)
Lemma numeric_cells_within_sample_fences (rws : list Row) (profile : DatasetProfile)
    (col : Column) (c : value) :
  NoDup (name <$> columns profile) → col ∈ columns profile → type col = numeric →
  (5 <= length rws)%nat →
  length (numeric_samples rt rws (name col)) = length rws →
  c ∈ column (name col) (rows (cleanData rt rws profile)) →
  let samples := numeric_samples rt rws (name col) in
  ∃ x, c = VNum (Fin x)
    ∧ ((Stats.fences samples).1 <= x)%Q ∧ (x <= (Stats.fences samples).2)%Q.
Proof.
  intros Hnd Hcol Hty Hlen Hfull Hc samples. unfold samples.
  rewrite <- (converted_no_missing
                (numeric_fill (summaries rt rws profile).1 (name col)) rws (name col) Hfull).
  by apply numeric_cells_within_imputed_fences.
Qed.

End RerunFacts.

(** C5, amended.  With distinct column names, a second run on the cleaned
    rows leaves every settled cell as it is: a numeric cell inside the
    bounds recomputed from the cleaned column (or any numeric cell of a
    table of fewer than five rows), a date cell that [normalizeDate] maps
    to itself, a non-empty trimmed text cell. *)
Theorem rerun_keeps_settled_cells (rt : runtime) (rws : list Row)
    (profile : DatasetProfile) (col : Column) (i : nat) (c : value) :
  NoDup (name <$> columns profile) →
  col ∈ columns profile →
  let once := rows (cleanData rt rws profile) in
  let twice := rows (cleanData rt once profile) in
  column (name col) once !! i = Some c →
  settled rt once col c →
  column (name col) twice !! i = Some c.
Proof.
  intros Hnd Hcol once twice Hi Hc. unfold twice.
  rewrite cleanData_column by done. unfold settled in Hc. unfold clean_column.
  destruct (type col) eqn:Hty.
  - destruct Hc as (x & -> & Hx).
    pose proof (cleanData_column rt rws profile col Hnd Hcol) as Honce.
    unfold clean_column in Honce. rewrite Hty in Honce. fold once in Honce.
    set (ys := Stats.winsorize _) in Honce.
    rewrite (numeric_samples_numbers rt _ _ _ Honce) in Hx.
    assert (length once = length ys) as Hlen.
    { apply (f_equal length) in Honce. unfold column in Honce.
      by rewrite !length_fmap in Honce. }
    rewrite Hlen in Hx. rewrite Honce in Hi |- *.
    rewrite converted_numbers. rewrite list_lookup_fmap in Hi |- *.
    destruct (ys !! i) as [y|] eqn:Ey; [|done]. injection Hi as ->.
    by rewrite (winsorize_inside ys i x Ey Hx).
  - done.
  - destruct Hc as (s & -> & Hs).
    rewrite list_lookup_fmap, Hi. simpl. unfold clean_datetime. by rewrite Hs.
  - destruct Hc as (s & -> & Hne & Hs).
    rewrite list_lookup_fmap, Hi. simpl. unfold clean_text.
    destruct s; [done|]. simpl. by rewrite Hs.
  - destruct Hc as (s & -> & Hne & Hs).
    rewrite list_lookup_fmap, Hi. simpl. unfold clean_text.
    destruct s; [done|]. simpl. by rewrite Hs.
  - done.
Qed.

Lemma rerun_keeps_settled_cells_witness :
  column "x"
    (rows (cleanData Reference.rt
             (rows (cleanData Reference.rt (Examples.table Examples.lopsided)
                      (Examples.single numeric)))
             (Examples.single numeric))) !! 6%nat
  = Some (Examples.num (-1)).
Proof.
  refine (rerun_keeps_settled_cells Reference.rt (Examples.table Examples.lopsided)
            (Examples.single numeric) {| name := "x"; type := numeric |} 6
            (Examples.num (-1)) _ _ _ _).
  - simpl. apply NoDup_singleton.
  - simpl. apply list_elem_of_singleton. reflexivity.
  - vm_compute. reflexivity.
  - exists (inject_Z (-1)). split; [reflexivity|]. right.
    vm_compute. split; discriminate.
Defined.

(** C5 as stated fails.  In the column [-8, -8, -3, -3, -3, -3, -1, 0] the
    last cell lies inside the bounds of the first run, which leaves it at
    [0]; the first run raises the two smallest cells, the quartiles of the
    cleaned column move, and the second run lowers the last cell to
    [-19/64]. *)
Lemma rerun_changes_cell_inside_first_fences :
  let rws := Examples.table Examples.lopsided in
  let profile := Examples.single numeric in
  let raw := converted Reference.rt
               (numeric_fill (summaries Reference.rt rws profile).1 "x") rws "x" in
  let once := rows (cleanData Reference.rt rws profile) in
  let twice := rows (cleanData Reference.rt once profile) in
  raw !! 7%nat = Some (inject_Z 0)
  ∧ ((Stats.fences raw).1 <= 0)%Q ∧ (0 <= (Stats.fences raw).2)%Q
  ∧ column "x" once !! 7%nat = Some (Examples.num 0)
  ∧ ∃ y, column "x" twice !! 7%nat = Some (VNum (Fin y))
       ∧ (y == - (19 # 64))%Q ∧ ¬ (y == 0)%Q.
Proof.
  split; [reflexivity|]. split; [vm_compute; discriminate|].
  split; [vm_compute; discriminate|]. split; [reflexivity|].
  eexists. split; [vm_compute; reflexivity|]. split; [reflexivity|].
  intros H. vm_compute in H. discriminate H.
Qed.

(** ** Row objects in a heap

    [cleanData] works on objects: the input rows are references, the
    output rows are fresh copies, and phase 2 assigns to the properties of
    the copies.  This section models the heap and shows that what it
    computes is [cleanData] above, on objects the caller cannot reach. *)

Module Heap.

Abbreviation loc := positive.
Abbreviation heap := (gmap loc Row).

(** The object at [l]. *)
Definition deref (h : heap) (l : loc) : Row := default ∅ (h !! l).

(** [rr\[k\] = v] for the object [rr] at [l]. *)
Definition store (h : heap) (l : loc) (k : string) (v : value) : heap :=
  <[l := <[k := v]> (deref h l)]> h.

(** [rows.map((r) => ({ ...r }))]: one new object per row, with the
    properties of the row. *)
Fixpoint copy_all (h : heap) (rws : list loc) : heap * list loc :=
  match rws with
  | [] => (h, [])
  | r :: rws' =>
      let l := fresh (dom h) in
      let '(h', out) := copy_all (<[l := deref h r]> h) rws' in
      (h', l :: out)
  end.

(** [for (const rr of out) rr\[k\] = f(rr\[k\])] *)
Definition update_each (f : value → value) (k : string) (h : heap) (out : list loc) : heap :=
  fold_left (λ h l, store h l k (f (get (deref h l) k))) out h.

(** [for (let i = 0; i < out.length; i++) out\[i\]\[k\] = vs\[i\]] *)
Definition write_each (k : string) (h : heap) (out : list loc) (vs : list value) : heap :=
  fold_left (λ h lv, store h lv.1 k lv.2) (zip out vs) h.

Section Cleaning.
Context (rt : runtime).

Definition transform_heap (medians : gmap string Q) (modes : gmap string value)
    (out : list loc) (h : heap) (col : Column) : heap :=
  let k := name col in
  match type col with
  | numeric =>
      let clipped :=
        Stats.winsorize (converted rt (numeric_fill medians k) (deref h <$> out) k) in
      write_each k h out ((λ c, VNum (Fin c)) <$> clipped)
  | datetime => update_each (clean_datetime rt) k h out
  | boolean => update_each (clean_boolean rt (modes !! k)) k h out
  | categorical | text => update_each (clean_text rt (text_fill modes k)) k h out
  | other => h
  end.

(** The heap after the call, the references to the output rows, and the
    report. *)
Definition cleanData (h : heap) (rws : list loc) (profile : DatasetProfile)
    : heap * (list loc * list string) :=
  let '(h0, out) := copy_all h rws in
  let '(medians, modes) := summaries rt (deref h0 <$> rws) profile in
  let h' := fold_left (transform_heap medians modes out) (columns profile) h0 in
  (h', (out, omap (report_line rt medians modes) (columns profile))).

End Cleaning.

End Heap.

Section HeapFacts.
Import Heap.
Context (rt : runtime).
Implicit Types (h : heap) (l r : loc) (out rws : list loc) (k : string).

Lemma deref_lookup h1 h2 l : h1 !! l = h2 !! l → deref h1 l = deref h2 l.
Proof. unfold deref. by intros ->. Qed.

Lemma store_other h l l' k v : l' ≠ l → store h l k v !! l' = h !! l'.
Proof. intros Hne. unfold store. by rewrite lookup_insert_ne. Qed.

Lemma deref_store h l k v : deref (store h l k v) l = <[k := v]> (deref h l).
Proof. unfold store. unfold deref at 1. by rewrite lookup_insert_eq. Qed.

Lemma deref_fmap_ext h1 h2 out :
  (∀ l, l ∈ out → h1 !! l = h2 !! l) → deref h1 <$> out = deref h2 <$> out.
Proof.
  intros H. apply list_fmap_ext. intros i l Hl.
  apply deref_lookup, H. by eapply list_elem_of_lookup_2.
Qed.

(** A loop that rewrites the property [k] of every output row, reading
    the row it writes. *)
Lemma update_each_spec (f : value → value) k out h :
  NoDup out →
  (∀ l, l ∉ out → update_each f k h out !! l = h !! l)
  ∧ deref (update_each f k h out) <$> out
    = (λ rr : Row, <[k := f (get rr k)]> rr) <$> (deref h <$> out).
Proof.
  revert h. induction out as [|l0 out IH]; intros h Hnd; [done|].
  apply NoDup_cons in Hnd as [Hl0 Hnd].
  set (h1 := store h l0 k (f (get (deref h l0) k))).
  change (update_each f k h (l0 :: out)) with (update_each f k h1 out).
  destruct (IH h1 Hnd) as [Hframe Hout]. split.
  - intros l [Hne Hl]%not_elem_of_cons. rewrite Hframe by done. by apply store_other.
  - rewrite !fmap_cons. f_equal.
    + rewrite (deref_lookup _ h1) by (by apply Hframe). apply deref_store.
    + rewrite Hout. f_equal. apply deref_fmap_ext. intros l Hl.
      apply store_other. by intros ->.
Qed.

(** A loop that writes precomputed values, one per output row. *)
Lemma write_each_spec k out (vs : list value) h :
  NoDup out → length out = length vs →
  (∀ l, l ∉ out → write_each k h out vs !! l = h !! l)
  ∧ deref (write_each k h out vs) <$> out
    = zip_with (λ (rr : Row) v, <[k := v]> rr) (deref h <$> out) vs.
Proof.
  revert h vs. induction out as [|l0 out IH]; intros h [|v vs] Hnd Hlen; try done.
  apply NoDup_cons in Hnd as [Hl0 Hnd].
  set (h1 := store h l0 k v).
  change (write_each k h (l0 :: out) (v :: vs)) with (write_each k h1 out vs).
  destruct (IH h1 vs Hnd) as [Hframe Hout]; [simpl in Hlen; lia|].
  split.
  - intros l [Hne Hl]%not_elem_of_cons. rewrite Hframe by done. by apply store_other.
  - rewrite !fmap_cons. cbn [zip_with]. f_equal.
    + rewrite (deref_lookup _ h1) by (by apply Hframe). apply deref_store.
    + rewrite Hout. f_equal. apply deref_fmap_ext. intros l Hl.
      apply store_other. by intros ->.
Qed.

(** The copies are new, distinct objects with the contents of the rows,
    and no object of the heap is changed. *)
Lemma copy_all_spec h rws :
  Forall (λ r, r ∈ dom h) rws →
  NoDup (copy_all h rws).2
  ∧ (∀ l, l ∈ (copy_all h rws).2 → l ∉ dom h)
  ∧ (∀ l, l ∈ dom h → (copy_all h rws).1 !! l = h !! l)
  ∧ deref (copy_all h rws).1 <$> (copy_all h rws).2 = deref h <$> rws.
Proof.
  revert h. induction rws as [|r rws IH]; intros h Hrws; simpl.
  { split; [constructor|]. split; [by intros ? ?%elem_of_nil|]. done. }
  apply Forall_cons in Hrws as [Hr Hrws].
  set (l0 := fresh (dom h)). set (h1 := <[l0 := deref h r]> h).
  assert (l0 ∉ dom h) as Hl0 by apply is_fresh.
  assert (dom h1 = {[l0]} ∪ dom h) as Hdom by apply dom_insert_L.
  destruct (IH h1) as (Hnd & Hfresh & Hold & Hout).
  { eapply Forall_impl; [exact Hrws|]. intros x Hx. simpl. rewrite Hdom. set_solver. }
  destruct (copy_all h1 rws) as [h' out]. simpl in *.
  assert (∀ l, l ∈ dom h → h' !! l = h !! l) as Hold'.
  { intros l Hl. rewrite Hold by (rewrite Hdom; set_solver).
    unfold h1. apply lookup_insert_ne. by intros ->. }
  split; [|split; [|split]].
  - apply NoDup_cons. split; [|done]. intros Hin%Hfresh. apply Hin. rewrite Hdom. set_solver.
  - intros l [->|Hl%Hfresh]%elem_of_cons; [done|]. rewrite Hdom in Hl. set_solver.
  - done.
  - change (deref h' <$> (l0 :: out) = deref h <$> (r :: rws)).
    change (deref h' <$> out = deref h1 <$> rws) in Hout.
    rewrite !fmap_cons. f_equal.
    + rewrite (deref_lookup h' h1) by (apply Hold; rewrite Hdom; set_solver).
      unfold deref at 1, h1. by rewrite lookup_insert_eq.
    + rewrite Hout. apply deref_fmap_ext. intros l Hl.
      unfold h1. apply lookup_insert_ne. intros ->.
      apply Hl0. by eapply (proj1 (Forall_forall _ _) Hrws).
Qed.

Lemma transform_heap_spec medians modes out h col :
  NoDup out →
  (∀ l, l ∉ out → transform_heap rt medians modes out h col !! l = h !! l)
  ∧ deref (transform_heap rt medians modes out h col) <$> out
    = transform_rows rt medians modes (deref h <$> out) col.
Proof.
  intros Hnd. unfold transform_heap, transform_rows.
  destruct (type col); try (by apply update_each_spec); try done.
  set (clipped := Stats.winsorize _).
  destruct (write_each_spec (name col) out ((λ c, VNum (Fin c)) <$> clipped) h Hnd)
    as [Hframe Hout].
  { unfold clipped. by rewrite length_fmap, winsorize_length, converted_length, length_fmap. }
  split; [done|]. rewrite Hout. by rewrite zip_with_fmap_r.
Qed.

Lemma fold_transform_heap_spec medians modes out cols h :
  NoDup out →
  (∀ l, l ∉ out → fold_left (transform_heap rt medians modes out) cols h !! l = h !! l)
  ∧ deref (fold_left (transform_heap rt medians modes out) cols h) <$> out
    = fold_left (transform_rows rt medians modes) cols (deref h <$> out).
Proof.
  intros Hnd. revert h. induction cols as [|c cols IH]; intros h; simpl; [done|].
  destruct (transform_heap_spec medians modes out h c Hnd) as [Hframe Hout].
  destruct (IH (transform_heap rt medians modes out h c)) as [Hframe' Hout'].
  split.
  - intros l Hl. by rewrite Hframe', Hframe.
  - by rewrite Hout', Hout.
Qed.

End HeapFacts.

(** The heap model computes [cleanData] of the contents of the input
    rows, in new objects, and changes no object of the caller's heap. *)
Lemma cleanData_refines (rt : runtime) (h : Heap.heap) (rws : list Heap.loc)
    (profile : DatasetProfile) :
  Forall (λ r, r ∈ dom h) rws →
  let '(h', (out, rep)) := Heap.cleanData rt h rws profile in
  let result := cleanData rt (Heap.deref h <$> rws) profile in
  Heap.deref h' <$> out = rows result
  ∧ rep = report result
  ∧ NoDup out
  ∧ (∀ l, l ∈ out → l ∉ dom h)
  ∧ (∀ l, l ∈ dom h → h' !! l = h !! l).
Proof.
  intros Hrws. unfold Heap.cleanData.
  destruct (copy_all_spec h rws Hrws) as (Hnd & Hfresh & Hold & Hout).
  destruct (Heap.copy_all h rws) as [h0 out]. simpl in Hnd, Hfresh, Hold, Hout.
  assert (Heap.deref h0 <$> rws = Heap.deref h <$> rws) as Hraw.
  { apply deref_fmap_ext. intros l Hl. apply Hold.
    by eapply (proj1 (Forall_forall _ _) Hrws). }
  rewrite Hraw. rewrite cleanData_rows, cleanData_report.
  destruct (summaries rt (Heap.deref h <$> rws) profile) as [medians modes].
  cbn [fst snd].
  destruct (fold_transform_heap_spec rt medians modes out (columns profile) h0 Hnd)
    as [Hframe Hrows].
  split; [by rewrite Hrows, Hout|]. split; [done|]. split; [done|]. split; [done|].
  intros l Hl. rewrite Hframe; [by apply Hold|]. intros Hin%Hfresh. done.
Qed.


Lemma report_line_prefix (rt : runtime) (medians : gmap string Q)
    (modes : gmap string value) (col : Column) :
  ∀ s, report_line rt medians modes col = Some s →
    ∃ body, s = name col +:+ ": " +:+ body.
Proof.
  intros s Hs. unfold report_line in Hs.
  destruct (type col); try done; injection Hs as <-; eexists; reflexivity.
Qed.

(** C9.  For input rows that are objects of the heap: no object of the
    heap, in particular no input row, is changed; the output rows are new,
    distinct objects, one per input row; a column name that the profile
    does not list maps in each output row to what it maps to in the input
    row of the same index (nothing, if the input row has no such
    property); and every report entry is the line of a listed column (one
    of a type that [cleanData] has a branch for), whose name is another
    one. *)
Theorem input_rows_untouched_unlisted_columns_kept (rt : runtime) (h : Heap.heap)
    (rws : list Heap.loc) (profile : DatasetProfile) :
  Forall (λ r, r ∈ dom h) rws →
  let '(h', (out, rep)) := Heap.cleanData rt h rws profile in
  (∀ l, l ∈ dom h → h' !! l = h !! l)
  ∧ NoDup out
  ∧ (∀ l, l ∈ out → l ∉ dom h)
  ∧ length out = length rws
  ∧ ∀ k, k ∉ name <$> columns profile →
      (∀ i r l, rws !! i = Some r → out !! i = Some l →
         Heap.deref h' l !! k = Heap.deref h r !! k)
      ∧ Forall2 (λ col s, name col ≠ k ∧ ∃ body, s = name col +:+ ": " +:+ body)
          (reported profile) rep.
Proof.
  intros Hrws. pose proof (cleanData_refines rt h rws profile Hrws) as Href.
  destruct (Heap.cleanData rt h rws profile) as [h' [out rep]].
  destruct Href as (Hrows & Hrep & Hnd & Hfresh & Hold).
  rewrite cleanData_rows in Hrows. rewrite cleanData_report in Hrep.
  split; [done|]. split; [done|]. split; [done|]. split.
  - apply (f_equal length) in Hrows.
    by rewrite fold_transform_length, !length_fmap in Hrows.
  - intros k Hk. split.
    + intros i r l Hr Hl.
      apply (f_equal (fmap (λ rr : Row, rr !! k))) in Hrows.
      rewrite fold_transform_other in Hrows by done.
      apply (f_equal (λ x, x !! i)) in Hrows.
      rewrite !list_lookup_fmap, Hr, Hl in Hrows. simpl in Hrows. congruence.
    + rewrite Hrep. unfold reported.
      pose proof (report_lines_reported rt (summaries rt (Heap.deref h <$> rws) profile).1
                    (summaries rt (Heap.deref h <$> rws) profile).2 (columns profile))
        as Hlines.
      apply Forall2_same_length_lookup in Hlines as [Hlen Hlines].
      apply Forall2_same_length_lookup. split; [done|].
      intros i col s Hcol Hs. split; [|by eapply report_line_prefix, Hlines].
      apply list_elem_of_lookup_2, list_elem_of_filter in Hcol as [_ Hcol].
      intros <-. apply Hk. apply list_elem_of_fmap. by exists col.
Qed.

Module HeapExample.

Definition h : Heap.heap :=
  {[ 1%positive := {[ "x" := VStr " a "; "y" := VNull ]};
     2%positive := {[ "x" := VNull ]} ]}.

Definition rws : list Heap.loc := [1%positive; 2%positive].

End HeapExample.

Lemma input_rows_untouched_unlisted_columns_kept_witness :
  let '(h', (out, rep)) :=
    Heap.cleanData Reference.rt HeapExample.h HeapExample.rws (Examples.single text) in
  (∀ l, l ∈ dom HeapExample.h → h' !! l = HeapExample.h !! l)
  ∧ NoDup out
  ∧ (∀ l, l ∈ out → l ∉ dom HeapExample.h)
  ∧ length out = length HeapExample.rws
  ∧ ∀ k, k ∉ name <$> columns (Examples.single text) →
      (∀ i r l, HeapExample.rws !! i = Some r → out !! i = Some l →
         Heap.deref h' l !! k = Heap.deref HeapExample.h r !! k)
      ∧ Forall2 (λ col s, name col ≠ k ∧ ∃ body, s = name col +:+ ": " +:+ body)
          (reported (Examples.single text)) rep.
Proof.
  apply (input_rows_untouched_unlisted_columns_kept Reference.rt HeapExample.h
           HeapExample.rws (Examples.single text)).
  repeat constructor; apply elem_of_dom; eexists; reflexivity.
Defined.

(** * Further properties of the code *)

(** ** Quartiles and clipping *)

Section QuartileRange.
Import Stats.
Local Open Scope Q_scope.

Lemma floor_half (z : Z) : Qfloor (inject_Z z * (1 # 2)) = (z / 2)%Z.
Proof. unfold Qfloor, Qmult, inject_Z. simpl. by rewrite Z.mul_1_r. Qed.

(** Where there is no next value, [q] is the value at the lower index. *)
Lemma q_without_next (a : list Q) (p : Q) (x : Q) :
  a ≠ [] → 0 <= p → p <= 1 →
  let base := Z.to_nat (Qfloor (inject_Z (Z.of_nat (length a) - 1) * p)) in
  a !! base = Some x → a !! S base = None → q a p = x.
Proof.
  intros Ha Hp0 Hp1 base Hx Hy.
  assert (0 < length a)%nat as Hlen by (destruct a; [done|simpl; lia]).
  destruct (position_bounds _ p Hlen Hp0 Hp1) as (H0 & H1 & _).
  unfold q. assert ((length a =? 0)%nat = false) as -> by (apply Nat.eqb_neq; lia).
  cbn zeta. unfold at_.
  destruct (Z.ltb_spec (Qfloor (inject_Z (Z.of_nat (length a) - 1) * p)) 0); [lia|].
  destruct (Z.ltb_spec (Qfloor (inject_Z (Z.of_nat (length a) - 1) * p) + 1) 0); [lia|].
  replace (Z.to_nat (Qfloor (inject_Z (Z.of_nat (length a) - 1) * p) + 1))
    with (S base) by (unfold base; lia).
  fold base. by rewrite Hx, Hy.
Qed.

(** On a sorted list [q] lies between two values of the list. *)
Lemma q_in_range (a : list Q) (p : Q) :
  StronglySorted Qle a → a ≠ [] → 0 <= p → p <= 1 →
  ∃ x y, x ∈ a ∧ y ∈ a ∧ x <= q a p ∧ q a p <= y.
Proof.
  intros Hs Ha Hp0 Hp1.
  destruct (q_between a p Hs Ha Hp0 Hp1) as (x & Hx & Hlo & Hup).
  destruct (a !! S (Z.to_nat (Qfloor (inject_Z (Z.of_nat (length a) - 1) * p))))
    as [y|] eqn:Ey.
  - exists x, y. split; [by eapply list_elem_of_lookup_2|].
    split; [by eapply list_elem_of_lookup_2|]. split; [done|by apply Hup].
  - exists x, x. split; [by eapply list_elem_of_lookup_2|].
    split; [by eapply list_elem_of_lookup_2|].
    rewrite (q_without_next a p x Ha Hp0 Hp1 Hx Ey). split; apply Qle_refl.
Qed.

Lemma sort_numbers_not_nil (arr : list Q) : arr ≠ [] → sort_numbers arr ≠ [].
Proof.
  intros Harr E. apply (f_equal length) in E. unfold sort_numbers in E.
  rewrite Sort.sort_length in E. by destruct arr.
Qed.

Lemma quartile_in_range (arr : list Q) (p : Q) :
  arr ≠ [] → 0 <= p → p <= 1 →
  ∃ x y, x ∈ arr ∧ y ∈ arr ∧ x <= q (sort_numbers arr) p ∧ q (sort_numbers arr) p <= y.
Proof.
  intros Harr Hp0 Hp1.
  destruct (q_in_range (sort_numbers arr) p) as (x & y & Hx & Hy & Hq);
    [apply sort_numbers_sorted|by apply sort_numbers_not_nil|done..|].
  exists x, y. apply (elem_of_Permutation_proper _ _ _ (sort_numbers_perm arr)) in Hx.
  apply (elem_of_Permutation_proper _ _ _ (sort_numbers_perm arr)) in Hy. done.
Qed.

End QuartileRange.

(** [v] lies between two values of [arr]. *)
Definition within_data (arr : list Q) (v : Q) : Prop :=
  ∃ x y, x ∈ arr ∧ y ∈ arr ∧ (x <= v)%Q ∧ (v <= y)%Q.

(** The code computes in binary floating point, where a difference of two
    finite values can overflow: for [[-2^1023; 2^1023]] the step
    [a[base + 1] - a[base]] of [quantiles] is [Infinity].  The properties
    of this section that need the quartiles and the bounds to be finite
    are stated for data within [safe_magnitude]: with every value within
    [2^1000] in absolute value, the differences are within [2^1001] and
    the bounds of [winsorize] within [2^1002], far below the largest
    double (just under [2^1024]). *)
Definition safe_magnitude : Q := inject_Z (2 ^ 1000).

Definition in_safe_range (arr : list Q) : Prop :=
  Forall (λ x, (Qabs x <= safe_magnitude)%Q) arr.

Section DoubleRange.
Import Stats.
Local Open Scope Q_scope.

Lemma within_data_safe (arr : list Q) (v : Q) :
  in_safe_range arr → within_data arr v → Qabs v <= safe_magnitude.
Proof.
  intros Hr (x & y & Hx & Hy & Hxv & Hvy).
  unfold in_safe_range in Hr. rewrite Forall_forall in Hr.
  pose proof (Hr x Hx) as Bx. pose proof (Hr y Hy) as By.
  set (M := safe_magnitude) in *. clearbody M.
  apply Qabs_Qle_condition in Bx, By. apply Qabs_Qle_condition. lra.
Qed.

(** Within the safe range the quartiles are within the safe magnitude and
    the bounds of [winsorize] within four times it. *)
Lemma fences_in_double_range (arr : list Q) :
  in_safe_range arr → arr ≠ [] →
  Qabs (fences arr).1 <= 4 * safe_magnitude ∧ Qabs (fences arr).2 <= 4 * safe_magnitude.
Proof.
  intros Hr Harr.
  assert (Qabs (q1 (quantiles arr)) <= safe_magnitude) as B1.
  { apply (within_data_safe arr); [done|]. unfold quantiles. cbn [q1].
    by apply quartile_in_range. }
  assert (Qabs (q3 (quantiles arr)) <= safe_magnitude) as B3.
  { apply (within_data_safe arr); [done|]. unfold quantiles. cbn [q3].
    by apply quartile_in_range. }
  unfold fences. cbn [fst snd].
  set (M := safe_magnitude) in *. clearbody M.
  set (a := q1 (quantiles arr)) in *. set (b := q3 (quantiles arr)) in *. clearbody a b.
  apply Qabs_Qle_condition in B1, B3. split; apply Qabs_Qle_condition; lra.
Qed.

End DoubleRange.

(** X1.  Each quartile of a non-empty list of values within the safe
    magnitude (where the interpolation cannot overflow) lies between two
    values of the list, hence between its least and its greatest value. *)
Theorem quartiles_within_data (arr : list Q) :
  in_safe_range arr →
  arr ≠ [] →
  within_data arr (Stats.q1 (Stats.quantiles arr))
  ∧ within_data arr (Stats.q2 (Stats.quantiles arr))
  ∧ within_data arr (Stats.q3 (Stats.quantiles arr)).
Proof.
  intros _ Harr. unfold Stats.quantiles. cbn [Stats.q1 Stats.q2 Stats.q3].
  repeat split; by apply quartile_in_range.
Qed.

Lemma quartiles_within_data_witness :
  within_data [inject_Z 3; inject_Z 1; inject_Z 2]
    (Stats.q1 (Stats.quantiles [inject_Z 3; inject_Z 1; inject_Z 2]))
  ∧ within_data [inject_Z 3; inject_Z 1; inject_Z 2]
      (Stats.q2 (Stats.quantiles [inject_Z 3; inject_Z 1; inject_Z 2]))
  ∧ within_data [inject_Z 3; inject_Z 1; inject_Z 2]
      (Stats.q3 (Stats.quantiles [inject_Z 3; inject_Z 1; inject_Z 2])).
Proof.
  apply (quartiles_within_data [inject_Z 3; inject_Z 1; inject_Z 2]).
  - repeat constructor; vm_compute; discriminate.
  - discriminate.
Defined.

(** X2.  With five values or more, all within the safe magnitude (where
    neither the quartiles nor the bounds can overflow), the quartiles are
    in order, so the interquartile range is not negative and the lower
    bound of [winsorize] is at most the upper one. *)
Theorem quartiles_in_order (arr : list Q) :
  in_safe_range arr →
  (5 <= length arr)%nat →
  (Stats.q1 (Stats.quantiles arr) <= Stats.q2 (Stats.quantiles arr))%Q
  ∧ (Stats.q2 (Stats.quantiles arr) <= Stats.q3 (Stats.quantiles arr))%Q
  ∧ ((Stats.fences arr).1 <= (Stats.fences arr).2)%Q.
Proof.
  intros _ Hlen.
  assert ((Stats.q1 (Stats.quantiles arr) <= Stats.q2 (Stats.quantiles arr))%Q
          ∧ (Stats.q2 (Stats.quantiles arr) <= Stats.q3 (Stats.quantiles arr))%Q) as [H12 H23].
  { unfold Stats.quantiles. cbn [Stats.q1 Stats.q2 Stats.q3].
    pose proof (sort_numbers_sorted arr) as Hs.
    assert (length (Stats.sort_numbers arr) = length arr) as Hl by apply Sort.sort_length.
    set (a := Stats.sort_numbers arr) in *.
    assert (a ≠ []) as Ha by (destruct a; [simpl in Hl; lia|done]).
    destruct (q_between a (1 # 4) Hs Ha) as (x1 & Hx1 & _ & Hup1); [done..|].
    destruct (q_between a (1 # 2) Hs Ha) as (x2 & Hx2 & Hlow2 & Hup2); [done..|].
    destruct (q_between a (3 # 4) Hs Ha) as (x3 & Hx3 & Hlow3 & _); [done..|].
    rewrite floor_quarter in Hx1, Hup1. rewrite floor_half in Hx2, Hup2.
    rewrite floor_three_quarters in Hx3.
    set (z := (Z.of_nat (length a) - 1)%Z) in *.
    assert (S (Z.to_nat (z / 4)) <= Z.to_nat (z / 2))%nat as Hi12.
    { unfold z. rewrite Hl. Z.to_euclidean_division_equations. lia. }
    assert (S (Z.to_nat (z / 2)) <= Z.to_nat (z * 3 / 4))%nat as Hi23.
    { unfold z. rewrite Hl. Z.to_euclidean_division_equations. lia. }
    split.
    - destruct (a !! S (Z.to_nat (z / 4))) as [y|] eqn:Ey.
      + specialize (Hup1 y eq_refl).
        pose proof (sorted_lookup_le a _ _ y x2 Hs Hi12 Ey Hx2). lra.
      + apply lookup_ge_None in Ey. apply lookup_lt_Some in Hx2. lia.
    - destruct (a !! S (Z.to_nat (z / 2))) as [y|] eqn:Ey.
      + specialize (Hup2 y eq_refl).
        pose proof (sorted_lookup_le a _ _ y x3 Hs Hi23 Ey Hx3). lra.
      + apply lookup_ge_None in Ey. apply lookup_lt_Some in Hx3. lia. }
  split; [done|]. split; [done|]. unfold Stats.fences. cbn [fst snd]. lra.
Qed.

Lemma quartiles_in_order_witness :
  let arr := inject_Z <$> [1; 2; 3; 4; 100] in
  (Stats.q1 (Stats.quantiles arr) <= Stats.q2 (Stats.quantiles arr))%Q
  ∧ (Stats.q2 (Stats.quantiles arr) <= Stats.q3 (Stats.quantiles arr))%Q
  ∧ ((Stats.fences arr).1 <= (Stats.fences arr).2)%Q.
Proof.
  apply (quartiles_in_order (inject_Z <$> [1; 2; 3; 4; 100])).
  - repeat constructor; vm_compute; discriminate.
  - simpl. lia.
Defined.

Section OrderIndependence.
Import Stats.
Local Open Scope Q_scope.

(** The number of values of [l] that are at most [v]. *)
Definition count_le (v : Q) (l : list Q) : nat :=
  length (filter (λ z, Qle_bool z v = true) l).

Lemma count_le_perm (v : Q) (l1 l2 : list Q) : l1 ≡ₚ l2 → count_le v l1 = count_le v l2.
Proof. intros H. unfold count_le. by rewrite H. Qed.

Lemma count_le_app (v : Q) (l1 l2 : list Q) :
  count_le v (l1 ++ l2) = (count_le v l1 + count_le v l2)%nat.
Proof. unfold count_le. by rewrite filter_app, length_app. Qed.

Lemma count_le_all (v : Q) (l : list Q) :
  Forall (λ z, z <= v) l → count_le v l = length l.
Proof.
  unfold count_le. induction 1 as [|z l Hz _ IH]; [done|].
  rewrite filter_cons. apply Qle_bool_iff in Hz.
  destruct (decide (Qle_bool z v = true)); [|done]. simpl. by rewrite IH.
Qed.

Lemma count_le_none (v : Q) (l : list Q) :
  Forall (λ z, v < z) l → count_le v l = 0%nat.
Proof.
  unfold count_le. induction 1 as [|z l Hz _ IH]; [done|].
  rewrite filter_cons. destruct (decide (Qle_bool z v = true)) as [E|E]; [|done].
  apply Qle_bool_iff in E. lra.
Qed.

Lemma count_le_bound (v : Q) (l : list Q) : (count_le v l <= length l)%nat.
Proof. unfold count_le. apply length_filter. Qed.

(** In a sorted list more than [i] values are at most the value at [i]. *)
Lemma sorted_count_le_lookup (a : list Q) (i : nat) (x : Q) :
  StronglySorted Qle a → a !! i = Some x → (i < count_le x a)%nat.
Proof.
  intros Hs Hi. rewrite <- (take_drop (S i) a), count_le_app.
  rewrite count_le_all.
  - rewrite length_take. apply lookup_lt_Some in Hi. lia.
  - apply Forall_forall. intros z [j Hj]%list_elem_of_lookup.
    pose proof (lookup_lt_Some _ _ _ Hj) as Hlt. rewrite length_take in Hlt.
    rewrite lookup_take_lt in Hj by lia.
    eapply (sorted_lookup_le a j i); [done| |done..]. lia.
Qed.

(** In a sorted list at most [i] values are below the value at [i]. *)
Lemma sorted_count_le_below (b : list Q) (i : nat) (x y : Q) :
  StronglySorted Qle b → b !! i = Some y → x < y → (count_le x b <= i)%nat.
Proof.
  intros Hs Hi Hxy. rewrite <- (take_drop i b), count_le_app.
  rewrite (count_le_none x (drop i b)).
  - pose proof (count_le_bound x (take i b)) as Hb. rewrite length_take in Hb. lia.
  - apply Forall_forall. intros z [j Hj]%list_elem_of_lookup.
    rewrite lookup_drop in Hj.
    assert (y <= z) by (eapply (sorted_lookup_le b i (i + j)); [done| |done..]; lia).
    lra.
Qed.

(** Two sorted arrangements of the same values agree index by index. *)
Lemma sorted_perm_pointwise (a b : list Q) (i : nat) (x y : Q) :
  StronglySorted Qle a → StronglySorted Qle b → a ≡ₚ b →
  a !! i = Some x → b !! i = Some y → x == y.
Proof.
  intros Ha Hb Hab Hx Hy. apply Qle_antisym; apply Qnot_lt_le; intros Hlt.
  - pose proof (sorted_count_le_lookup b i y Hb Hy) as H1.
    pose proof (sorted_count_le_below a i y x Ha Hx Hlt) as H2.
    rewrite (count_le_perm y a b Hab) in H2. lia.
  - pose proof (sorted_count_le_lookup a i x Ha Hx) as H1.
    pose proof (sorted_count_le_below b i x y Hb Hy Hlt) as H2.
    rewrite <- (count_le_perm x a b Hab) in H2. lia.
Qed.

Lemma q_pointwise (a b : list Q) (p : Q) :
  length a = length b →
  (∀ i x y, a !! i = Some x → b !! i = Some y → x == y) →
  q a p == q b p.
Proof.
  intros Hlen Heq. unfold q. rewrite <- Hlen.
  destruct (length a =? 0)%nat; [reflexivity|]. cbn zeta.
  set (pos := inject_Z (Z.of_nat (length a) - 1) * p).
  set (rest := pos - inject_Z (Qfloor pos)).
  assert (∀ i, match at_ a i, at_ b i with
               | Some x, Some y => x == y
               | None, None => True
               | _, _ => False
               end) as Hat.
  { intros i. unfold at_. destruct (i <? 0)%Z; [done|].
    destruct (a !! Z.to_nat i) as [x|] eqn:Ex, (b !! Z.to_nat i) as [y|] eqn:Ey.
    - by eapply Heq.
    - apply lookup_lt_Some in Ex. apply lookup_ge_None in Ey. lia.
    - apply lookup_lt_Some in Ey. apply lookup_ge_None in Ex. lia.
    - done. }
  pose proof (Hat (Qfloor pos)) as H0. pose proof (Hat (Qfloor pos + 1)%Z) as H1.
  destruct (at_ a (Qfloor pos)) as [x0|], (at_ b (Qfloor pos)) as [y0|]; try done;
    destruct (at_ a (Qfloor pos + 1)) as [x1|], (at_ b (Qfloor pos + 1)) as [y1|];
    try done; unfold interpolate, or_else; cbn [from_option id]; try reflexivity.
  assert (x0 + (x1 - x0) * rest == y0 + (y1 - y0) * rest) as E by (by rewrite H0, H1).
  destruct (Qeq_bool (x0 + (x1 - x0) * rest) 0) eqn:Ea,
           (Qeq_bool (y0 + (y1 - y0) * rest) 0) eqn:Eb; cbn [from_option id]; try done.
  - apply Qeq_bool_iff in Ea. apply Qeq_bool_neq in Eb. rewrite <- E in Eb. by destruct Eb.
  - apply Qeq_bool_iff in Eb. apply Qeq_bool_neq in Ea. rewrite E in Ea. by destruct Ea.
Qed.

End OrderIndependence.

(** X3.  The quartiles do not depend on the order of the values. *)
Theorem quantiles_order_independent (arr1 arr2 : list Q) :
  arr1 ≡ₚ arr2 →
  (Stats.q1 (Stats.quantiles arr1) == Stats.q1 (Stats.quantiles arr2))%Q
  ∧ (Stats.q2 (Stats.quantiles arr1) == Stats.q2 (Stats.quantiles arr2))%Q
  ∧ (Stats.q3 (Stats.quantiles arr1) == Stats.q3 (Stats.quantiles arr2))%Q.
Proof.
  intros Hperm. unfold Stats.quantiles. cbn [Stats.q1 Stats.q2 Stats.q3].
  assert (Stats.sort_numbers arr1 ≡ₚ Stats.sort_numbers arr2) as Hs.
  { by rewrite !sort_numbers_perm. }
  assert (length (Stats.sort_numbers arr1) = length (Stats.sort_numbers arr2)) as Hlen
    by (by rewrite Hs).
  assert (∀ i x y, Stats.sort_numbers arr1 !! i = Some x →
                   Stats.sort_numbers arr2 !! i = Some y → (x == y)%Q) as Heq.
  { intros i x y. apply sorted_perm_pointwise; [apply sort_numbers_sorted..|done]. }
  repeat split; by apply q_pointwise.
Qed.

Lemma quantiles_order_independent_witness :
  (Stats.q1 (Stats.quantiles [inject_Z 3; inject_Z 1; inject_Z 2])
   == Stats.q1 (Stats.quantiles [inject_Z 1; inject_Z 3; inject_Z 2]))%Q
  ∧ (Stats.q2 (Stats.quantiles [inject_Z 3; inject_Z 1; inject_Z 2])
     == Stats.q2 (Stats.quantiles [inject_Z 1; inject_Z 3; inject_Z 2]))%Q
  ∧ (Stats.q3 (Stats.quantiles [inject_Z 3; inject_Z 1; inject_Z 2])
     == Stats.q3 (Stats.quantiles [inject_Z 1; inject_Z 3; inject_Z 2]))%Q.
Proof.
  apply (quantiles_order_independent [inject_Z 3; inject_Z 1; inject_Z 2]
           [inject_Z 1; inject_Z 3; inject_Z 2]).
  apply Permutation_swap.
Defined.

Section ClippingFacts.
Import Stats.
Local Open Scope Q_scope.




(** A list of equal values is its own winsorization. *)
Lemma winsorize_equal_values (arr : list Q) (c : Q) :
  Forall (λ x, x == c) arr → winsorize arr = arr.
Proof.
  intros Hc. unfold winsorize. destruct (Nat.ltb_spec (length arr) 5) as [?|Hlen]; [done|].
  assert (arr ≠ []) as Harr by (destruct arr; [simpl in Hlen; lia|done]).
  assert (∀ p, 0 <= p → p <= 1 → q (sort_numbers arr) p == c) as Hq.
  { intros p Hp0 Hp1.
    destruct (quartile_in_range arr p Harr Hp0 Hp1) as (x & y & Hx & Hy & Hlo & Hhi).
    rewrite Forall_forall in Hc. pose proof (Hc x Hx) as Ex. pose proof (Hc y Hy) as Ey.
    apply Qle_antisym; lra. }
  destruct (fences arr) as [lo hi] eqn:Ef. unfold fences, quantiles in Ef.
  cbn [q1 q3] in Ef. injection Ef as <- <-.
  assert (q (sort_numbers arr) (1 # 4) == c) as H1 by (by apply Hq).
  assert (q (sort_numbers arr) (3 # 4) == c) as H3 by (by apply Hq).
  transitivity (id <$> arr); [|apply list_fmap_id]. apply list_fmap_ext.
  intros i x Hx. rewrite Forall_forall in Hc.
  pose proof (Hc x (list_elem_of_lookup_2 _ _ _ Hx)) as Ex.
  change (id x) with x. apply clip_inside; lra.
Qed.

End ClippingFacts.


Module Samples.


Definition flat_middle : list Q := inject_Z <$> ([1; 5; 5; 5; 5; 5; 9] : list Z).

End Samples.


(** X5.  With five values or more, when the first and the third quartile
    coincide every value is clipped to that one value: a column in which
    the middle half is constant is flattened. *)
Theorem winsorize_zero_spread_flattens (arr : list Q) (y : Q) :
  (5 <= length arr)%nat →
  (Stats.q1 (Stats.quantiles arr) == Stats.q3 (Stats.quantiles arr))%Q →
  y ∈ Stats.winsorize arr →
  (y == Stats.q1 (Stats.quantiles arr))%Q.
Proof.
  intros Hlen Hq Hy. destruct (winsorize_within arr y Hlen Hy) as [Hlo Hhi].
  unfold Stats.fences in Hlo, Hhi. cbn [fst snd] in Hlo, Hhi.
  apply Qle_antisym; lra.
Qed.

Lemma winsorize_zero_spread_flattens_witness :
  (inject_Z 5 == Stats.q1 (Stats.quantiles Samples.flat_middle))%Q.
Proof.
  apply (winsorize_zero_spread_flattens Samples.flat_middle (inject_Z 5)).
  - simpl. lia.
  - reflexivity.
  - vm_compute. apply list_elem_of_further, list_elem_of_here.
Defined.

(** ** The summaries of phase 1, column by column *)

Section SummaryFacts.
Context (rt : runtime).
Implicit Types (rws : list Row) (col : Column) (k : string).

(** The median that fills a numeric column: the second quartile of its
    samples, or zero where it has none. *)
Definition median_fill rws k : Q :=
  if (length (numeric_samples rt rws k) =? 0)%nat then 0%Q
  else Stats.q2 (Stats.quantiles (numeric_samples rt rws k)).

(** The boolean that fills a boolean column. *)
Definition boolean_fill rws k : bool :=
  default false (Stats.mode (boolean_samples rt rws k)).

(** The string that fills a categorical or text column. *)
Definition string_fill rws k : string :=
  default "Unknown" (Stats.mode (text_samples rt rws k)).

Lemma summarize_medians_other rws st col k :
  name col ≠ k → (summarize rt rws st col).1 !! k = st.1 !! k.
Proof.
  intros Hne. destruct st as [medians modes]. unfold summarize.
  destruct (type col); simpl; try done.
  - destruct (length _ =? 0)%nat; simpl; [done|by rewrite lookup_insert_ne].
  - by destruct (Stats.mode _).
  - by destruct (Stats.mode _).
  - by destruct (Stats.mode _).
Qed.

Lemma fold_summarize_medians_other rws cols st k :
  k ∉ name <$> cols → (fold_left (summarize rt rws) cols st).1 !! k = st.1 !! k.
Proof.
  revert st. induction cols as [|c cols IH]; intros st Hk; simpl; [done|].
  rewrite fmap_cons in Hk. apply not_elem_of_cons in Hk as [Hne Hk].
  rewrite IH by done. by apply summarize_medians_other.
Qed.

Lemma fold_summarize_medians_numeric rws cols st0 col :
  NoDup (name <$> cols) → col ∈ cols → type col = numeric →
  st0.1 !! name col = None →
  default 0%Q ((fold_left (summarize rt rws) cols st0).1 !! name col)
  = median_fill rws (name col).
Proof.
  revert st0. induction cols as [|c cols IH]; intros st0 Hnd Hcol Hty Hst0; simpl.
  { by apply elem_of_nil in Hcol. }
  rewrite fmap_cons in Hnd. apply NoDup_cons in Hnd as [Hc Hnd].
  apply elem_of_cons in Hcol as [->|Hcol].
  - rewrite fold_summarize_medians_other by done.
    destruct st0 as [medians modes]. unfold summarize, median_fill. rewrite Hty.
    simpl in Hst0. destruct (length _ =? 0)%nat; simpl.
    + by rewrite Hst0.
    + by rewrite lookup_insert_eq.
  - apply IH; [done..|]. rewrite summarize_medians_other; [done|].
    intros E. apply Hc. rewrite E. apply list_elem_of_fmap. by exists col.
Qed.

Lemma numeric_fill_summaries rws profile col :
  NoDup (name <$> columns profile) → col ∈ columns profile → type col = numeric →
  numeric_fill (summaries rt rws profile).1 (name col) = median_fill rws (name col).
Proof.
  intros. unfold numeric_fill, summaries. by apply fold_summarize_medians_numeric.
Qed.

Lemma fold_summarize_modes_boolean rws cols st0 col :
  NoDup (name <$> cols) → col ∈ cols → type col = boolean →
  st0.2 !! name col = None →
  (fold_left (summarize rt rws) cols st0).2 !! name col
  = VBool <$> Stats.mode (boolean_samples rt rws (name col)).
Proof.
  revert st0. induction cols as [|c cols IH]; intros st0 Hnd Hcol Hty Hst0; simpl.
  { by apply elem_of_nil in Hcol. }
  rewrite fmap_cons in Hnd. apply NoDup_cons in Hnd as [Hc Hnd].
  apply elem_of_cons in Hcol as [->|Hcol].
  - rewrite fold_summarize_modes_other by done.
    destruct st0 as [medians modes]. unfold summarize. rewrite Hty.
    simpl in Hst0. destruct (Stats.mode _); simpl; [by rewrite lookup_insert_eq|done].
  - apply IH; [done..|]. rewrite summarize_modes_other; [done|].
    intros E. apply Hc. rewrite E. apply list_elem_of_fmap. by exists col.
Qed.

Lemma boolean_fill_summaries rws profile col :
  NoDup (name <$> columns profile) → col ∈ columns profile → type col = boolean →
  default (VBool false) ((summaries rt rws profile).2 !! name col)
  = VBool (boolean_fill rws (name col)).
Proof.
  intros. unfold summaries, boolean_fill.
  rewrite fold_summarize_modes_boolean by done. by destruct (Stats.mode _).
Qed.

Lemma text_fill_summaries rws profile col :
  NoDup (name <$> columns profile) → col ∈ columns profile →
  is_textual (type col) = true →
  text_fill (summaries rt rws profile).2 (name col) = VStr (string_fill rws (name col)).
Proof.
  intros. unfold text_fill, string_fill.
  rewrite summaries_modes_text by done. by destruct (Stats.mode _).
Qed.

(** The cleaned cells of a profiled column, from its raw cells and its
    own fill value. *)
Lemma cleaned_column rws profile col :
  NoDup (name <$> columns profile) → col ∈ columns profile →
  column (name col) (rows (cleanData rt rws profile))
  = match type col with
    | numeric =>
        (λ c, VNum (Fin c))
          <$> Stats.winsorize (converted rt (median_fill rws (name col)) rws (name col))
    | datetime => clean_datetime rt <$> column (name col) rws
    | boolean =>
        clean_boolean rt (Some (VBool (boolean_fill rws (name col))))
          <$> column (name col) rws
    | categorical | text =>
        clean_text rt (VStr (string_fill rws (name col))) <$> column (name col) rws
    | other => column (name col) rws
    end.
Proof.
  intros Hnd Hcol. rewrite cleanData_column by done. unfold clean_column.
  destruct (type col) eqn:Hty.
  - rewrite numeric_fill_summaries by done. unfold converted, column.
    by rewrite <- list_fmap_compose.
  - apply list_fmap_ext. intros i v _. unfold clean_boolean.
    destruct (normalizeBoolean rt v); [done|]. simpl.
    by rewrite boolean_fill_summaries.
  - done.
  - rewrite text_fill_summaries; [done..|by rewrite Hty].
  - rewrite text_fill_summaries; [done..|by rewrite Hty].
  - done.
Qed.

End SummaryFacts.

(** ** Strings *)

Section StringFacts.
Import JSString.

Lemma trimStart_idem (s : string) : trimStart (trimStart s) = trimStart s.
Proof.
  induction s as [|c s IH]; [done|]. simpl.
  destruct (is_whitespace c) eqn:E; [done|]. simpl. by rewrite E.
Qed.

Lemma trimEnd_cons (c : ascii) (s : string) :
  trimEnd (String c s)
  = match trimEnd s with
    | EmptyString => if is_whitespace c then EmptyString else String c EmptyString
    | t => String c t
    end.
Proof. done. Qed.

Lemma trimEnd_idem (s : string) : trimEnd (trimEnd s) = trimEnd s.
Proof.
  induction s as [|c s IH]; [done|]. rewrite trimEnd_cons.
  destruct (trimEnd s) as [|c' t] eqn:Et.
  - destruct (is_whitespace c) eqn:E; [done|]. rewrite trimEnd_cons. simpl. by rewrite E.
  - rewrite trimEnd_cons, IH. done.
Qed.

Lemma trimStart_cons (c : ascii) (s : string) :
  trimStart (String c s) = if is_whitespace c then trimStart s else String c s.
Proof. done. Qed.

Lemma trimStart_trimEnd (s : string) : trimStart (trimEnd s) = trimEnd (trimStart s).
Proof.
  induction s as [|c s IH]; [done|]. rewrite trimEnd_cons, (trimStart_cons c s).
  destruct (is_whitespace c) eqn:E.
  - rewrite <- IH. destruct (trimEnd s) as [|c' t]; [done|].
    by rewrite trimStart_cons, E.
  - rewrite trimEnd_cons.
    destruct (trimEnd s) as [|c' t]; by rewrite trimStart_cons, E.
Qed.

Lemma trim_idem (s : string) : trim (trim s) = trim s.
Proof.
  unfold trim. rewrite trimStart_trimEnd, trimStart_idem. apply trimEnd_idem.
Qed.

Lemma remove_commas_idem (s : string) : remove_commas (remove_commas s) = remove_commas s.
Proof.
  induction s as [|c s IH]; [done|]. simpl.
  destruct (Ascii.eqb c ",") eqn:E; [done|]. simpl. by rewrite E, IH.
Qed.

End StringFacts.

(** ** Coercions *)

(** X6.  Thousands separators are ignored: a string with commas is
    coerced like the same string without them, unless nothing but commas
    is there (the empty string is missing before anything is parsed). *)
Theorem toNumber_ignores_commas (rt : runtime) (s : string) :
  JSString.remove_commas s ≠ EmptyString →
  toNumber rt (VStr s) = toNumber rt (VStr (JSString.remove_commas s)).
Proof.
  intros Hne. unfold toNumber.
  assert (s ≠ EmptyString) as Hs by (by intros ->).
  destruct s as [|c s]; [done|].
  destruct (JSString.remove_commas (String c s)) as [|c' s'] eqn:E; [done|].
  simpl nullish. simpl is_empty_string. simpl String_. cbn [orb].
  rewrite <- E. by rewrite remove_commas_idem.
Qed.

Lemma toNumber_ignores_commas_witness :
  toNumber Reference.rt (VStr "1,234.5")
  = toNumber Reference.rt (VStr (JSString.remove_commas "1,234.5")).
Proof. apply (toNumber_ignores_commas Reference.rt "1,234.5"). discriminate. Defined.

Section CaseFacts.
Import JSString.

Lemma is_whitespace_lower (c : ascii) : is_whitespace (lower c) = is_whitespace c.
Proof. destruct c as [[] [] [] [] [] [] [] []]; reflexivity. Qed.

Lemma lower_idem (c : ascii) : lower (lower c) = lower c.
Proof. destruct c as [[] [] [] [] [] [] [] []]; reflexivity. Qed.

Lemma toLowerCase_idem (s : string) : toLowerCase (toLowerCase s) = toLowerCase s.
Proof. induction s as [|c s IH]; [done|]. simpl. by rewrite lower_idem, IH. Qed.

Lemma trimStart_toLowerCase (s : string) :
  trimStart (toLowerCase s) = toLowerCase (trimStart s).
Proof.
  induction s as [|c s IH]; [done|]. simpl toLowerCase at 1.
  rewrite !trimStart_cons, is_whitespace_lower.
  by destruct (is_whitespace c).
Qed.

Lemma trimEnd_toLowerCase (s : string) :
  trimEnd (toLowerCase s) = toLowerCase (trimEnd s).
Proof.
  induction s as [|c s IH]; [done|]. simpl toLowerCase at 1.
  rewrite !trimEnd_cons, IH, is_whitespace_lower.
  destruct (trimEnd s); simpl; [by destruct (is_whitespace c)|done].
Qed.

Lemma trim_toLowerCase (s : string) : trim (toLowerCase s) = toLowerCase (trim s).
Proof. unfold trim. by rewrite trimStart_toLowerCase, trimEnd_toLowerCase. Qed.

End CaseFacts.

(** X7.  [normalizeBoolean] reads a string up to letter case and
    surrounding white space: a string that is not blank is normalized
    like its trimmed, lower-case form. *)
Theorem normalizeBoolean_ignores_case_and_padding (rt : runtime) (s : string) :
  JSString.trim s ≠ EmptyString →
  normalizeBoolean rt (VStr s)
  = normalizeBoolean rt (VStr (JSString.toLowerCase (JSString.trim s))).
Proof.
  intros Hne. unfold normalizeBoolean.
  destruct s as [|c s]; [done|].
  destruct (JSString.trim (String c s)) as [|c' s'] eqn:E; [done|].
  simpl nullish. simpl is_empty_string. cbn [orb String_].
  rewrite trim_toLowerCase, toLowerCase_idem, <- E, trim_idem. done.
Qed.

Lemma normalizeBoolean_ignores_case_and_padding_witness :
  normalizeBoolean Reference.rt (VStr "  YES ")
  = normalizeBoolean Reference.rt (VStr (JSString.toLowerCase (JSString.trim "  YES "))).
Proof.
  apply (normalizeBoolean_ignores_case_and_padding Reference.rt "  YES "). discriminate.
Defined.

(** ** Dates *)

Section MoreDateFacts.
Import JSDate JSString.

(** With a year outside 0000 to 9999 the characters 11 to 18 of the ISO
    string are not a time of day. *)
Lemma toISOString_extended (t : Z) :
  ¬ (0 <= YearFromTime t <= 9999) →
  slice 11 19 (toISOString t) ≠ "00:00:00"
  ∧ String.length (toISOString t) = 27%nat.
Proof.
  unfold YearFromTime, toISOString, date_string.
  destruct (civil_from_days (Day t)) as [[y m] d]. simpl. intros Hy.
  unfold year_string.
  assert ((0 <=? y) && (y <=? 9999) = false) as ->.
  { apply andb_false_iff. destruct (Z.leb_spec 0 y); [|by left].
    right. apply Z.leb_gt. lia. }
  split; [|done]. simpl. intros H. discriminate H.
Qed.

Lemma first_second_of_day (t : Z) :
  HourFromTime t = 0 ∧ MinFromTime t = 0 ∧ SecFromTime t = 0
  ↔ TimeWithinDay t < 1000.
Proof.
  unfold HourFromTime, MinFromTime, SecFromTime, TimeWithinDay, msPerDay.
  pose proof (Z.mod_pos_bound t 86400000).
  split.
  - intros (Hh & Hm & Hs). Z.to_euclidean_division_equations. lia.
  - intros Hlt. rewrite !Z.div_small by lia. done.
Qed.

End MoreDateFacts.

(** X8.  For a value parsed to an instant in the years 0000 to 9999, the
    result of [normalizeDate] is the date-only string exactly when the
    instant lies in the first second of its UTC day: less than a second is
    dropped, never more. *)
Theorem normalizeDate_date_only_first_second (rt : runtime) (v : value) (t : Z) :
  normalizeDate rt v ≠ None →
  date_value rt v = Some t →
  0 <= JSDate.YearFromTime t <= 9999 →
  normalizeDate rt v = Some (JSDate.date_string t)
  ↔ 0 <= t - JSDate.Day t * JSDate.msPerDay < 1000.
Proof.
  intros Hok Hd Hy. unfold normalizeDate in *.
  destruct (nullish v || is_empty_string v); [done|]. rewrite Hd. clear Hok.
  destruct (toISOString_slices t Hy) as (Htime & Hdate & Hlen10 & Hlen24).
  rewrite Htime, Hdate.
  assert (t - JSDate.Day t * JSDate.msPerDay = JSDate.TimeWithinDay t) as ->.
  { unfold JSDate.Day, JSDate.TimeWithinDay, JSDate.msPerDay.
    pose proof (Z.div_mod t 86400000). lia. }
  assert (0 <= JSDate.TimeWithinDay t) as H0.
  { unfold JSDate.TimeWithinDay, JSDate.msPerDay.
    pose proof (Z.mod_pos_bound t 86400000). lia. }
  pose proof (first_second_of_day t) as Hsec.
  pose proof (time_string_midnight t) as Hmid.
  destruct (String.eqb_spec (JSDate.time_string t) "00:00:00") as [E|E].
  - split; [|done]. intros _. split; [done|]. apply Hsec, Hmid, E.
  - split.
    + intros [= Heq]. rewrite Heq in Hlen24. congruence.
    + intros [_ Hlt]. exfalso. apply E, Hmid, Hsec, Hlt.
Qed.

Lemma normalizeDate_date_only_first_second_witness :
  normalizeDate Reference.rt (VDate (Some 86400999)) = Some (JSDate.date_string 86400999)
  ↔ 0 <= 86400999 - JSDate.Day 86400999 * JSDate.msPerDay < 1000.
Proof.
  apply (normalizeDate_date_only_first_second Reference.rt (VDate (Some 86400999)) 86400999).
  - vm_compute. discriminate.
  - reflexivity.
  - vm_compute. split; discriminate.
Defined.

(** X9.  For a value parsed to an instant whose UTC year is outside 0000
    to 9999, the result of [normalizeDate] is always the full timestamp,
    with a sign and six year digits, also at midnight. *)
Theorem normalizeDate_extended_year_full (rt : runtime) (v : value) (t : Z) :
  normalizeDate rt v ≠ None →
  date_value rt v = Some t →
  ¬ (0 <= JSDate.YearFromTime t <= 9999) →
  normalizeDate rt v = Some (JSDate.toISOString t)
  ∧ String.length (JSDate.toISOString t) = 27%nat.
Proof.
  intros Hok Hd Hy. unfold normalizeDate in *.
  destruct (nullish v || is_empty_string v); [done|]. rewrite Hd.
  destruct (toISOString_extended t Hy) as [Hne Hlen]. split; [|done].
  by destruct (String.eqb_spec (JSString.slice 11 19 (JSDate.toISOString t)) "00:00:00").
Qed.

Lemma normalizeDate_extended_year_full_witness :
  normalizeDate Reference.rt (VDate (Some 253402300800000))
  = Some (JSDate.toISOString 253402300800000)
  ∧ String.length (JSDate.toISOString 253402300800000) = 27%nat.
Proof.
  apply (normalizeDate_extended_year_full Reference.rt (VDate (Some 253402300800000))
           253402300800000).
  - vm_compute. discriminate.
  - reflexivity.
  - vm_compute. intros [_ H]. by apply H.
Defined.

(** ** Numeric columns *)

Section NumericFacts.
Context (rt : runtime).

Lemma numeric_samples_nil (rws : list Row) (k : string) :
  numeric_samples rt rws k = [] →
  converted rt 0%Q rws k = replicate (length rws) 0%Q.
Proof.
  unfold numeric_samples, converted.
  induction rws as [|rr rws IH]; [done|]. rewrite fmap_cons. simpl.
  change (list_omap Row Q ?f rws) with (omap f rws).
  destruct (toNumber rt (get rr k)); [done|]. intros E. simpl. by rewrite IH.
Qed.

Lemma winsorize_short (arr : list Q) : (length arr < 5)%nat → Stats.winsorize arr = arr.
Proof.
  intros Hlen. unfold Stats.winsorize.
  by destruct (Nat.ltb_spec (length arr) 5) as [_|?]; [|lia].
Qed.

End NumericFacts.

(** X10.  In a table of fewer than five rows nothing is clipped: the
    cleaned cell of a numeric column (of a profile with distinct column
    names) is the coerced raw value, and where the raw value is missing it
    is the median of the column's samples, or zero if the column has no
    sample. *)
Theorem numeric_cell_of_small_table (rt : runtime) (rws : list Row)
    (profile : DatasetProfile) (col : Column) (i : nat) (rr : Row) :
  NoDup (name <$> columns profile) →
  col ∈ columns profile →
  type col = numeric →
  (length rws < 5)%nat →
  rws !! i = Some rr →
  column (name col) (rows (cleanData rt rws profile)) !! i
  = Some (VNum (Fin (default (median_fill rt rws (name col))
                       (toNumber rt (get rr (name col)))))).
Proof.
  intros Hnd Hcol Hty Hlen Hi. rewrite cleaned_column by done. rewrite Hty.
  rewrite winsorize_short by (by rewrite converted_length).
  unfold converted. by rewrite !list_lookup_fmap, Hi.
Qed.

Lemma numeric_cell_of_small_table_witness :
  column "x" (rows (cleanData Reference.rt
                      (Examples.table [Examples.num 10; VNull; Examples.num 30])
                      (Examples.single numeric))) !! 1%nat
  = Some (VNum (Fin (default
                       (median_fill Reference.rt
                          (Examples.table [Examples.num 10; VNull; Examples.num 30]) "x")
                       (toNumber Reference.rt (get {[ "x" := VNull ]} "x"))))).
Proof.
  apply (numeric_cell_of_small_table Reference.rt
           (Examples.table [Examples.num 10; VNull; Examples.num 30])
           (Examples.single numeric) {| name := "x"; type := numeric |} 1 {[ "x" := VNull ]}).
  - simpl. apply NoDup_singleton.
  - simpl. apply list_elem_of_singleton. reflexivity.
  - reflexivity.
  - simpl. lia.
  - reflexivity.
Defined.

(** X11.  A numeric column (of a profile with distinct column names) in
    which no raw value can be coerced to a number is cleaned to zero in
    every row, whatever the number of rows. *)
Theorem numeric_column_without_samples_is_zero (rt : runtime) (rws : list Row)
    (profile : DatasetProfile) (col : Column) :
  NoDup (name <$> columns profile) →
  col ∈ columns profile →
  type col = numeric →
  numeric_samples rt rws (name col) = [] →
  column (name col) (rows (cleanData rt rws profile))
  = replicate (length rws) (VNum (Fin 0%Q)).
Proof.
  intros Hnd Hcol Hty Hnone. rewrite cleaned_column by done. rewrite Hty.
  unfold median_fill. rewrite Hnone. simpl length. simpl Nat.eqb. cbn iota.
  rewrite (numeric_samples_nil rt rws (name col) Hnone).
  rewrite (winsorize_equal_values _ 0%Q).
  - by rewrite fmap_replicate.
  - apply Forall_forall. intros x [-> _]%elem_of_replicate. reflexivity.
Qed.

Lemma numeric_column_without_samples_is_zero_witness :
  column "x" (rows (cleanData Reference.rt
                      (Examples.table [VNull; VStr "n/a"; VStr ""; VBool true; VNull; VNull])
                      (Examples.single numeric)))
  = replicate
      (length (Examples.table [VNull; VStr "n/a"; VStr ""; VBool true; VNull; VNull]))
      (VNum (Fin 0%Q)).
Proof.
  apply (numeric_column_without_samples_is_zero Reference.rt
           (Examples.table [VNull; VStr "n/a"; VStr ""; VBool true; VNull; VNull])
           (Examples.single numeric) {| name := "x"; type := numeric |}).
  - simpl. apply NoDup_singleton.
  - simpl. apply list_elem_of_singleton. reflexivity.
  - reflexivity.
  - reflexivity.
Defined.



(** ** Boolean, categorical and text columns *)

(** X13.  The cleaned cell of a boolean column (of a profile with distinct
    column names) is the boolean that [normalizeBoolean] gives for the raw
    cell, and where that is missing the most frequent normalized value of
    the column, or false if the column has none. *)
Theorem boolean_cell_normalized_or_filled (rt : runtime) (rws : list Row)
    (profile : DatasetProfile) (col : Column) (i : nat) (rr : Row) :
  NoDup (name <$> columns profile) →
  col ∈ columns profile →
  type col = boolean →
  rws !! i = Some rr →
  column (name col) (rows (cleanData rt rws profile)) !! i
  = Some (VBool (default (boolean_fill rt rws (name col))
                   (normalizeBoolean rt (get rr (name col))))).
Proof.
  intros Hnd Hcol Hty Hi. rewrite cleaned_column by done. rewrite Hty.
  unfold column. rewrite !list_lookup_fmap, Hi. simpl. unfold clean_boolean.
  by destruct (normalizeBoolean rt (get rr (name col))).
Qed.

Lemma boolean_cell_normalized_or_filled_witness :
  column "x" (rows (cleanData Reference.rt
                      (Examples.table [VStr "yes"; VStr "NO"; VStr ""; VStr "1"])
                      (Examples.single boolean))) !! 2%nat
  = Some (VBool (default
                   (boolean_fill Reference.rt
                      (Examples.table [VStr "yes"; VStr "NO"; VStr ""; VStr "1"]) "x")
                   (normalizeBoolean Reference.rt (get {[ "x" := VStr "" ]} "x")))).
Proof.
  apply (boolean_cell_normalized_or_filled Reference.rt
           (Examples.table [VStr "yes"; VStr "NO"; VStr ""; VStr "1"])
           (Examples.single boolean) {| name := "x"; type := boolean |} 2
           {[ "x" := VStr "" ]}).
  - simpl. apply NoDup_singleton.
  - simpl. apply list_elem_of_singleton. reflexivity.
  - reflexivity.
  - reflexivity.
Defined.

(** X14.  Cleaning is idempotent on boolean columns: a second run with the
    same profile (with distinct column names) leaves every cell of a
    boolean column as the first run made it. *)
Theorem boolean_column_rerun_unchanged (rt : runtime) (rws : list Row)
    (profile : DatasetProfile) (col : Column) :
  NoDup (name <$> columns profile) →
  col ∈ columns profile →
  type col = boolean →
  let once := rows (cleanData rt rws profile) in
  column (name col) (rows (cleanData rt once profile)) = column (name col) once.
Proof.
  intros Hnd Hcol Hty once. rewrite (cleaned_column rt once) by done. rewrite Hty.
  unfold once at 2 3. rewrite (cleaned_column rt rws) by done. rewrite Hty.
  rewrite <- list_fmap_compose. apply list_fmap_ext. intros i v _. simpl.
  assert (∃ b, clean_boolean rt (Some (VBool (boolean_fill rt rws (name col)))) v = VBool b)
    as [b ->] by (unfold clean_boolean; destruct (normalizeBoolean rt v); eauto).
  done.
Qed.

Lemma boolean_column_rerun_unchanged_witness :
  column "x"
    (rows (cleanData Reference.rt
             (rows (cleanData Reference.rt
                      (Examples.table [VStr "yes"; VStr "NO"; VStr ""; VStr "1"])
                      (Examples.single boolean)))
             (Examples.single boolean)))
  = column "x"
      (rows (cleanData Reference.rt
               (Examples.table [VStr "yes"; VStr "NO"; VStr ""; VStr "1"])
               (Examples.single boolean))).
Proof.
  apply (boolean_column_rerun_unchanged Reference.rt
           (Examples.table [VStr "yes"; VStr "NO"; VStr ""; VStr "1"])
           (Examples.single boolean) {| name := "x"; type := boolean |}).
  - simpl. apply NoDup_singleton.
  - simpl. apply list_elem_of_singleton. reflexivity.
  - reflexivity.
Defined.

Section TextFacts.
Context (rt : runtime).

Lemma text_samples_trimmed (rws : list Row) (k s : string) :
  s ∈ text_samples rt rws k → s ≠ EmptyString ∧ JSString.trim s = s.
Proof.
  unfold text_samples. intros [Hne Hs]%list_elem_of_filter. split; [done|].
  apply list_elem_of_omap in Hs as (rr & _ & Hrr).
  destruct (nullish (get rr k) || is_empty_string (get rr k)); [done|].
  injection Hrr as <-. apply trim_idem.
Qed.

Lemma string_fill_trimmed (rws : list Row) (k : string) :
  string_fill rt rws k ≠ EmptyString
  ∧ JSString.trim (string_fill rt rws k) = string_fill rt rws k.
Proof.
  unfold string_fill. destruct (Stats.mode (text_samples rt rws k)) as [m|] eqn:Em; simpl.
  - apply mode_elem in Em. by eapply text_samples_trimmed.
  - done.
Qed.

End TextFacts.

(** X15.  The cleaned cell of a categorical or text column (of a profile
    with distinct column names) is a string without white space at either
    end: the trimmed text of the raw cell, and where the raw cell is null,
    undefined or the empty string the fill value, which is the most
    frequent trimmed non-empty text of the column, or "Unknown" if the
    column has none, and is never empty. *)
Theorem text_cell_trimmed_or_filled (rt : runtime) (rws : list Row)
    (profile : DatasetProfile) (col : Column) (i : nat) (rr : Row) :
  NoDup (name <$> columns profile) →
  col ∈ columns profile →
  type col = categorical ∨ type col = text →
  rws !! i = Some rr →
  let raw := get rr (name col) in
  let fill := string_fill rt rws (name col) in
  ∃ s, column (name col) (rows (cleanData rt rws profile)) !! i = Some (VStr s)
    ∧ s = (if nullish raw || is_empty_string raw then fill
           else JSString.trim (String_ rt raw))
    ∧ JSString.trim s = s
    ∧ fill ≠ EmptyString.
Proof.
  intros Hnd Hcol Hty Hi raw fill.
  destruct (string_fill_trimmed rt rws (name col)) as [Hne Htrim].
  rewrite cleaned_column by done.
  assert (∃ s, clean_text rt (VStr fill) raw = VStr s
            ∧ s = (if nullish raw || is_empty_string raw then fill
                   else JSString.trim (String_ rt raw))
            ∧ JSString.trim s = s) as (s & Hs & Hdef & Hts).
  { unfold clean_text. destruct (nullish raw || is_empty_string raw).
    - by exists fill.
    - eexists. split; [done|]. split; [done|]. apply trim_idem. }
  exists s. split; [|done].
  destruct Hty as [-> | ->]; unfold column; rewrite !list_lookup_fmap, Hi; simpl;
    fold raw; fold fill; by rewrite Hs.
Qed.

Lemma text_cell_trimmed_or_filled_witness :
  let rws := Examples.table Examples.names in
  let raw := get ({[ "x" := VNull ]} : Row) "x" in
  let fill := string_fill Reference.rt rws "x" in
  ∃ s, column "x" (rows (cleanData Reference.rt rws (Examples.single text))) !! 3%nat
       = Some (VStr s)
    ∧ s = (if nullish raw || is_empty_string raw then fill
           else JSString.trim (String_ Reference.rt raw))
    ∧ JSString.trim s = s
    ∧ fill ≠ EmptyString.
Proof.
  apply (text_cell_trimmed_or_filled Reference.rt (Examples.table Examples.names)
           (Examples.single text) {| name := "x"; type := text |} 3 {[ "x" := VNull ]}).
  - simpl. apply NoDup_singleton.
  - simpl. apply list_elem_of_singleton. reflexivity.
  - right. reflexivity.
  - reflexivity.
Defined.

(** ** The table as a whole *)

Section TableFacts.
Context (rt : runtime).
Implicit Types (rws out : list Row) (col : Column) (k : string).

Lemma omap_fmap_list {A B C : Type} (f : B → option C) (g : A → B) (l : list A) :
  omap f (g <$> l) = omap (λ x, f (g x)) l.
Proof.
  induction l as [|x l IH]; [done|]. rewrite fmap_cons. simpl.
  change (list_omap B C f (g <$> l)) with (omap f (g <$> l)).
  by rewrite IH.
Qed.

Lemma numeric_samples_column rws k :
  numeric_samples rt rws k = omap (toNumber rt) (column k rws).
Proof. unfold numeric_samples, column. by rewrite omap_fmap_list. Qed.

Lemma boolean_samples_column rws k :
  boolean_samples rt rws k = omap (normalizeBoolean rt) (column k rws).
Proof. unfold boolean_samples, column. by rewrite omap_fmap_list. Qed.

Lemma text_samples_column rws k :
  text_samples rt rws k
  = filter (λ s, s ≠ EmptyString)
      (omap (λ v, if nullish v || is_empty_string v then None
                  else Some (JSString.trim (String_ rt v))) (column k rws)).
Proof. unfold text_samples, column. by rewrite omap_fmap_list. Qed.

Lemma converted_column (median : Q) rws k :
  converted rt median rws k = (λ v, default median (toNumber rt v)) <$> column k rws.
Proof. unfold converted, column. by rewrite <- list_fmap_compose. Qed.

Lemma zip_write_dom k (f : Q → value) out (cs : list Q) :
  length out = length cs →
  Forall2 (λ rr rr' : Row, dom rr' = {[k]} ∪ dom rr) out
    (zip_with (λ rr c, <[k := f c]> rr) out cs).
Proof.
  revert cs. induction out as [|rr out IH]; intros [|c cs] Hlen; simpl in *; try done.
  constructor; [apply dom_insert_L|]. apply IH. lia.
Qed.

Lemma fmap_write_dom k (f : Row → value) out :
  Forall2 (λ rr rr' : Row, dom rr' = {[k]} ∪ dom rr) out
    ((λ rr, <[k := f rr]> rr) <$> out).
Proof.
  apply Forall2_fmap_r, Forall_Forall2_diag, Forall_forall.
  intros rr _. apply dom_insert_L.
Qed.

Lemma transform_rows_dom medians modes out col :
  supported (type col) = true →
  Forall2 (λ rr rr' : Row, dom rr' = {[name col]} ∪ dom rr) out
    (transform_rows rt medians modes out col).
Proof.
  unfold transform_rows. destruct (type col); intros Hs; try done.
  - apply zip_write_dom. by rewrite winsorize_length, converted_length.
  - apply (fmap_write_dom (name col) (λ rr, clean_boolean rt _ (get rr (name col)))).
  - apply (fmap_write_dom (name col) (λ rr, clean_datetime rt (get rr (name col)))).
  - apply (fmap_write_dom (name col) (λ rr, clean_text rt _ (get rr (name col)))).
  - apply (fmap_write_dom (name col) (λ rr, clean_text rt _ (get rr (name col)))).
Qed.

(** A column of a type outside the five is passed over. *)
Lemma transform_rows_unsupported medians modes out col :
  supported (type col) = false → transform_rows rt medians modes out col = out.
Proof. unfold transform_rows. by destruct (type col). Qed.

Lemma fold_transform_dom medians modes cols out :
  Forall2 (λ rr rr' : Row,
             dom rr' = list_to_set (name <$> filter (λ col, supported (type col) = true) cols)
                       ∪ dom rr) out
    (fold_left (transform_rows rt medians modes) cols out).
Proof.
  revert out. induction cols as [|c cols IH]; intros out.
  - apply Forall_Forall2_diag, Forall_forall. intros rr _. set_solver.
  - cbn [fold_left]. destruct (supported (type c)) eqn:Hs.
    + rewrite filter_cons_True by done.
      eapply Forall2_trans; [|by apply transform_rows_dom|apply IH].
      intros rr rr1 rr2 H1 H2. simpl in H1, H2. rewrite H2, H1, fmap_cons. set_solver.
    + rewrite filter_cons_False by (by rewrite Hs).
      rewrite transform_rows_unsupported by done. apply IH.
Qed.

Lemma cleaned_rows_have_keys rws (profile : DatasetProfile) :
  Forall2 (λ rr rr' : Row, dom rr' = list_to_set (name <$> reported profile) ∪ dom rr)
    rws (rows (cleanData rt rws profile)).
Proof. rewrite cleanData_rows. apply fold_transform_dom. Qed.

(** The columns that no supported column of the profile names are left
    as they are. *)
Lemma fold_transform_unwritten medians modes cols out k :
  k ∉ name <$> filter (λ col, supported (type col) = true) cols →
  (λ rr : Row, rr !! k) <$> fold_left (transform_rows rt medians modes) cols out
  = (λ rr : Row, rr !! k) <$> out.
Proof.
  revert out. induction cols as [|c cols IH]; intros out Hk; [done|].
  cbn [fold_left]. destruct (supported (type c)) eqn:Hs.
  - rewrite filter_cons_True, fmap_cons in Hk by done.
    apply not_elem_of_cons in Hk as [Hne Hk].
    rewrite IH by done. by apply transform_rows_other.
  - rewrite filter_cons_False in Hk by (by rewrite Hs).
    rewrite transform_rows_unsupported by done. by apply IH.
Qed.

Lemma fold_summarize_nil cols st : fold_left (summarize rt []) cols st = st.
Proof.
  revert st. induction cols as [|c cols IH]; intros st; simpl; [done|].
  rewrite IH. destruct st as [medians modes]. unfold summarize. by destruct (type c).
Qed.

(** The report line of a column, given the median and the text that fill
    it; a column of a type outside the five has none. *)
Definition line_with (median : Q) (fill : string) col : option string :=
  match type col with
  | numeric =>
      Some (name col +:+ ": converted to number, imputed median "
              +:+ Number_toFixed2 rt median +:+ ", winsorized outliers")
  | datetime => Some (name col +:+ ": normalized dates to ISO (YYYY-MM-DD or ISO 8601)")
  | boolean => Some (name col +:+ ": normalized booleans and filled missing with mode")
  | categorical | text =>
      Some (name col +:+ ": trimmed text and filled missing with '" +:+ fill +:+ "'")
  | other => None
  end.

(** The report line of a column, with the fill values of the raw rows. *)
Definition fill_line rws col : option string :=
  line_with (median_fill rt rws (name col)) (string_fill rt rws (name col)) col.

Lemma omap_ext_elem {A B : Type} (f g : A → option B) (l : list A) :
  (∀ x, x ∈ l → f x = g x) → omap f l = omap g l.
Proof.
  induction l as [|x l IH]; intros H; [done|]. simpl.
  change (list_omap A B f l) with (omap f l).
  change (list_omap A B g l) with (omap g l).
  rewrite (H x) by apply list_elem_of_here.
  rewrite IH; [done|]. intros y Hy. apply H. by apply list_elem_of_further.
Qed.

Lemma report_fill_lines rws (profile : DatasetProfile) :
  NoDup (name <$> columns profile) →
  report (cleanData rt rws profile) = omap (fill_line rws) (columns profile).
Proof.
  intros Hnd. rewrite cleanData_report. apply omap_ext_elem. intros col Hcol.
  unfold report_line, fill_line, line_with. destruct (type col) eqn:Hty.
  - by rewrite numeric_fill_summaries.
  - done.
  - done.
  - rewrite text_fill_summaries; [done..|by rewrite Hty].
  - rewrite text_fill_summaries; [done..|by rewrite Hty].
  - done.
Qed.

End TableFacts.

(** X16.  The cleaned table has the rows of the input in the same number
    and order, and each cleaned row has the keys of its input row together
    with the name of every column of the profile whose type is one of the
    five supported types: such a column is added to a row that lacks it,
    and a column of any other type adds no key. *)
Theorem cleaned_rows_have_profiled_keys (rt : runtime) (rws : list Row)
    (profile : DatasetProfile) :
  Forall2 (λ rr rr' : Row, dom rr' = list_to_set (name <$> reported profile) ∪ dom rr)
    rws (rows (cleanData rt rws profile)).
Proof. rewrite cleanData_rows. apply fold_transform_dom. Qed.

(** X17.  The cleaned cells of a profiled column depend on the raw cells
    of that column only: two tables that agree on the column are cleaned
    alike in it, whatever their other columns hold (column names being
    distinct in the profile). *)
Theorem cleaned_column_depends_on_own_cells (rt : runtime) (rws1 rws2 : list Row)
    (profile : DatasetProfile) (col : Column) :
  NoDup (name <$> columns profile) →
  col ∈ columns profile →
  column (name col) rws1 = column (name col) rws2 →
  column (name col) (rows (cleanData rt rws1 profile))
  = column (name col) (rows (cleanData rt rws2 profile)).
Proof.
  intros Hnd Hcol Heq. rewrite !cleaned_column by done.
  unfold median_fill, boolean_fill, string_fill.
  rewrite !converted_column, !numeric_samples_column, !boolean_samples_column,
    !text_samples_column. by rewrite Heq.
Qed.

Lemma cleaned_column_depends_on_own_cells_witness :
  column "x"
    (rows (cleanData Reference.rt (Examples.table Examples.names) (Examples.single text)))
  = column "x"
      (rows (cleanData Reference.rt
               ((λ rr : Row, <["y" := VBool true]> rr) <$> Examples.table Examples.names)
               (Examples.single text))).
Proof.
  apply (cleaned_column_depends_on_own_cells Reference.rt (Examples.table Examples.names)
           ((λ rr : Row, <["y" := VBool true]> rr) <$> Examples.table Examples.names)
           (Examples.single text) {| name := "x"; type := text |}).
  - simpl. apply NoDup_singleton.
  - simpl. apply list_elem_of_singleton. reflexivity.
  - reflexivity.
Defined.

(** X18.  On the empty table the result has no rows, and the report still
    has the line of every column of a supported type, in the order of the
    profile, with the default fill values: median zero for a numeric
    column, "Unknown" for a categorical or text column.  A column of any
    other type has no line. *)
Theorem cleanData_of_empty_table (rt : runtime) (profile : DatasetProfile) :
  rows (cleanData rt [] profile) = []
  ∧ report (cleanData rt [] profile) = omap (line_with rt 0%Q "Unknown") (columns profile).
Proof.
  split.
  - pose proof (fold_transform_length rt (summaries rt [] profile).1
                  (summaries rt [] profile).2 (columns profile) []) as Hlen.
    rewrite cleanData_rows. by destruct (fold_left _ _ _).
  - rewrite cleanData_report. unfold summaries. rewrite fold_summarize_nil. simpl.
    apply omap_ext_elem. intros col _. unfold report_line, line_with, numeric_fill, text_fill.
    rewrite !lookup_empty. by destruct (type col).
Qed.

(** X19.  With distinct column names, the report is made of the lines of
    the columns of a supported type, in the order of the profile; the line
    of a numeric column names the median that fills it (zero where the
    column has no sample, and the median also where no cell is missing),
    and the line of a categorical or text column names its fill value.  A
    column of any other type has no line. *)
Theorem report_names_the_fill (rt : runtime) (rws : list Row) (profile : DatasetProfile) :
  NoDup (name <$> columns profile) →
  report (cleanData rt rws profile)
  = omap (λ col, line_with rt (median_fill rt rws (name col))
                   (string_fill rt rws (name col)) col) (columns profile).
Proof. intros Hnd. by rewrite report_fill_lines. Qed.

Lemma report_names_the_fill_witness :
  report (cleanData Reference.rt Unsupported.rws Unsupported.profile)
  = omap (λ col, line_with Reference.rt (median_fill Reference.rt Unsupported.rws (name col))
                   (string_fill Reference.rt Unsupported.rws (name col)) col)
      (columns Unsupported.profile).
Proof.
  apply (report_names_the_fill Reference.rt Unsupported.rws Unsupported.profile).
  simpl. apply NoDup_cons. split; [|apply NoDup_singleton].
  intros H. apply list_elem_of_singleton in H. discriminate.
Defined.

(** ** Running twice, and the order of the profile *)

(** X20.  Cleaning is not idempotent on text: a cell of a categorical or
    text column that holds a non-empty string of white space is emptied by
    the first run, and a second run with the same profile (with distinct
    column names) replaces the empty string by the fill value computed
    from the cleaned column, which is not empty. *)
Theorem blank_text_cell_filled_by_second_run (rt : runtime) (rws : list Row)
    (profile : DatasetProfile) (col : Column) (i : nat) (rr : Row) (s : string) :
  NoDup (name <$> columns profile) →
  col ∈ columns profile →
  type col = categorical ∨ type col = text →
  rws !! i = Some rr →
  get rr (name col) = VStr s →
  JSString.blank s →
  let once := rows (cleanData rt rws profile) in
  let twice := rows (cleanData rt once profile) in
  column (name col) once !! i = Some (VStr EmptyString)
  ∧ column (name col) twice !! i = Some (VStr (string_fill rt once (name col)))
  ∧ string_fill rt once (name col) ≠ EmptyString.
Proof.
  intros Hnd Hcol Hty Hi Hget [Hne Htrim] once twice.
  assert (column (name col) once !! i = Some (VStr EmptyString)) as Honce.
  { unfold once. rewrite cleaned_column by done.
    destruct Hty as [-> | ->]; unfold column; rewrite !list_lookup_fmap, Hi; simpl;
      rewrite Hget; unfold clean_text; (destruct s; [done|]); simpl; by rewrite Htrim. }
  split; [done|]. split; [|apply string_fill_trimmed].
  unfold twice. rewrite cleaned_column by done.
  destruct Hty as [-> | ->]; by rewrite list_lookup_fmap, Honce.
Qed.

Lemma blank_text_cell_filled_by_second_run_witness :
  let once := rows (cleanData Reference.rt (Examples.table Examples.names)
                      (Examples.single text)) in
  let twice := rows (cleanData Reference.rt once (Examples.single text)) in
  column "x" once !! 1%nat = Some (VStr EmptyString)
  ∧ column "x" twice !! 1%nat = Some (VStr (string_fill Reference.rt once "x"))
  ∧ string_fill Reference.rt once "x" ≠ EmptyString.
Proof.
  apply (blank_text_cell_filled_by_second_run Reference.rt (Examples.table Examples.names)
           (Examples.single text) {| name := "x"; type := text |} 1
           {[ "x" := VStr "   " ]} "   ").
  - simpl. apply NoDup_singleton.
  - simpl. apply list_elem_of_singleton. reflexivity.
  - right. reflexivity.
  - reflexivity.
  - reflexivity.
  - split; [discriminate|reflexivity].
Defined.

(** X21.  In a table of fewer than five rows cleaning is idempotent on
    numeric columns: a second run with the same profile (with distinct
    column names) leaves every cell as the first run made it. *)
Theorem numeric_column_of_small_table_rerun_unchanged (rt : runtime) (rws : list Row)
    (profile : DatasetProfile) (col : Column) :
  NoDup (name <$> columns profile) →
  col ∈ columns profile →
  type col = numeric →
  (length rws < 5)%nat →
  let once := rows (cleanData rt rws profile) in
  column (name col) (rows (cleanData rt once profile)) = column (name col) once.
Proof.
  intros Hnd Hcol Hty Hlen once.
  assert (length once = length rws) as Hlen1.
  { unfold once. rewrite cleanData_rows. apply fold_transform_length. }
  pose proof (cleaned_column rt rws profile col Hnd Hcol) as Honce.
  rewrite Hty in Honce. fold once in Honce.
  rewrite winsorize_short in Honce by (by rewrite converted_length).
  rewrite (cleaned_column rt once) by done. rewrite Hty.
  rewrite winsorize_short by (rewrite converted_length; lia).
  rewrite converted_column, Honce. by rewrite converted_numbers.
Qed.

Lemma numeric_column_of_small_table_rerun_unchanged_witness :
  let once := rows (cleanData Reference.rt
                      (Examples.table [Examples.num 10; VNull; Examples.num 30])
                      (Examples.single numeric)) in
  column "x" (rows (cleanData Reference.rt once (Examples.single numeric)))
  = column "x" once.
Proof.
  apply (numeric_column_of_small_table_rerun_unchanged Reference.rt
           (Examples.table [Examples.num 10; VNull; Examples.num 30])
           (Examples.single numeric) {| name := "x"; type := numeric |}).
  - simpl. apply NoDup_singleton.
  - simpl. apply list_elem_of_singleton. reflexivity.
  - reflexivity.
  - simpl. lia.
Defined.

Section ProfileOrder.
Context (rt : runtime).

Lemma cleaned_row_lookup (rws : list Row) (p1 p2 : DatasetProfile)
    (i : nat) (r1 r2 : Row) (k : string) :
  NoDup (name <$> columns p1) → columns p1 ≡ₚ columns p2 →
  rows (cleanData rt rws p1) !! i = Some r1 →
  rows (cleanData rt rws p2) !! i = Some r2 →
  r1 !! k = r2 !! k.
Proof.
  intros Hnd Hperm H1 H2.
  assert (NoDup (name <$> columns p2)) as Hnd2 by (by rewrite <- Hperm).
  assert (reported p1 ≡ₚ reported p2) as Hrep by (unfold reported; by rewrite Hperm).
  destruct (decide (k ∈ name <$> reported p1)) as [Hk|Hk].
  - apply list_elem_of_fmap in Hk as (col & -> & Hrep1).
    assert (col ∈ reported p2) as Hrep2 by (by rewrite <- Hrep).
    assert (col ∈ columns p1) as Hcol by (by apply list_elem_of_filter in Hrep1 as [_ ?]).
    assert (col ∈ columns p2) as Hcol2 by (by rewrite <- Hperm).
    pose proof (cleaned_column rt rws p1 col Hnd Hcol) as E1.
    pose proof (cleaned_column rt rws p2 col Hnd2 Hcol2) as E2.
    rewrite <- E2 in E1. apply (f_equal (λ l, l !! i)) in E1. unfold column in E1.
    rewrite !list_lookup_fmap, H1, H2 in E1. simpl in E1. injection E1 as E1.
    assert (name col ∈ dom r1) as D1.
    { pose proof (Forall2_lookup_r _ _ _ _ _
        (cleaned_rows_have_keys rt rws p1) H1) as (rr & _ & ->).
      apply elem_of_union_l, elem_of_list_to_set, list_elem_of_fmap. by exists col. }
    assert (name col ∈ dom r2) as D2.
    { pose proof (Forall2_lookup_r _ _ _ _ _
        (cleaned_rows_have_keys rt rws p2) H2) as (rr & _ & ->).
      apply elem_of_union_l, elem_of_list_to_set, list_elem_of_fmap. by exists col. }
    apply elem_of_dom in D1 as [v1 Hv1]. apply elem_of_dom in D2 as [v2 Hv2].
    unfold get in E1. rewrite Hv1, Hv2 in E1 |- *. simpl in E1. by rewrite E1.
  - assert (k ∉ name <$> reported p2) as Hk2 by (by rewrite <- Hrep).
    rewrite cleanData_rows in H1, H2.
    pose proof (fold_transform_unwritten rt (summaries rt rws p1).1 (summaries rt rws p1).2
                  (columns p1) rws k Hk) as E1.
    pose proof (fold_transform_unwritten rt (summaries rt rws p2).1 (summaries rt rws p2).2
                  (columns p2) rws k Hk2) as E2.
    apply (f_equal (λ l, l !! i)) in E1, E2.
    rewrite !list_lookup_fmap, H1 in E1. rewrite !list_lookup_fmap, H2 in E2.
    destruct (rws !! i); simpl in E1, E2; congruence.
Qed.

End ProfileOrder.

(** X22.  With distinct column names, the cleaned rows do not depend on
    the order of the columns in the profile; only the order of the report
    lines does. *)
Theorem cleaned_rows_independent_of_profile_order (rt : runtime) (rws : list Row)
    (p1 p2 : DatasetProfile) :
  NoDup (name <$> columns p1) →
  columns p1 ≡ₚ columns p2 →
  rows (cleanData rt rws p1) = rows (cleanData rt rws p2)
  ∧ report (cleanData rt rws p1) ≡ₚ report (cleanData rt rws p2).
Proof.
  intros Hnd Hperm. split.
  - assert (length (rows (cleanData rt rws p1)) = length (rows (cleanData rt rws p2))) as Hlen.
    { rewrite !cleanData_rows. by rewrite !fold_transform_length. }
    apply list_eq. intros i.
    destruct (rows (cleanData rt rws p1) !! i) as [r1|] eqn:E1,
             (rows (cleanData rt rws p2) !! i) as [r2|] eqn:E2.
    + f_equal. apply map_eq. intros k. by eapply cleaned_row_lookup.
    + apply lookup_lt_Some in E1. apply lookup_ge_None in E2. lia.
    + apply lookup_lt_Some in E2. apply lookup_ge_None in E1. lia.
    + done.
  - assert (NoDup (name <$> columns p2)) as Hnd2 by (by rewrite <- Hperm).
    rewrite !report_fill_lines by done. by rewrite Hperm.
Qed.

Module ProfileExample.

Definition rws : list Row :=
  [ {[ "a" := VStr " x "; "n" := Examples.num 3 ]};
    {[ "a" := VNull; "n" := VStr "1,000" ]} ].

Definition forward : DatasetProfile :=
  {| columns := [ {| name := "a"; type := text |}; {| name := "n"; type := numeric |} ] |}.

Definition backward : DatasetProfile :=
  {| columns := [ {| name := "n"; type := numeric |}; {| name := "a"; type := text |} ] |}.

End ProfileExample.

Lemma cleaned_rows_independent_of_profile_order_witness :
  rows (cleanData Reference.rt ProfileExample.rws ProfileExample.forward)
  = rows (cleanData Reference.rt ProfileExample.rws ProfileExample.backward)
  ∧ report (cleanData Reference.rt ProfileExample.rws ProfileExample.forward)
    ≡ₚ report (cleanData Reference.rt ProfileExample.rws ProfileExample.backward).
Proof.
  apply (cleaned_rows_independent_of_profile_order Reference.rt ProfileExample.rws
           ProfileExample.forward ProfileExample.backward).
  - simpl. apply NoDup_cons. split; [|apply NoDup_singleton].
    intros H. apply list_elem_of_singleton in H. discriminate H.
  - simpl. apply Permutation_swap.
Defined.

(** ** Columns of a type outside the five *)

Lemma same_name_same_column (cols : list Column) (c1 c2 : Column) :
  NoDup (name <$> cols) → c1 ∈ cols → c2 ∈ cols → name c1 = name c2 → c1 = c2.
Proof.
  induction cols as [|c cols IH]; intros Hnd H1 H2 E.
  { by apply elem_of_nil in H1. }
  rewrite fmap_cons in Hnd. apply NoDup_cons in Hnd as [Hc Hnd].
  apply elem_of_cons in H1 as [->|H1]; apply elem_of_cons in H2 as [->|H2].
  - done.
  - exfalso. apply Hc. rewrite E. apply list_elem_of_fmap. by exists c2.
  - exfalso. apply Hc. rewrite <- E. apply list_elem_of_fmap. by exists c1.
  - by apply IH.
Qed.

(** X23.  A column of the profile whose type is none of the five (column
    names being distinct) is passed through: in every cleaned row its key
    holds what it held in the input row, and a row that lacks the key
    still lacks it. *)
Theorem unsupported_column_passed_through (rt : runtime) (rws : list Row)
    (profile : DatasetProfile) (col : Column) :
  NoDup (name <$> columns profile) →
  col ∈ columns profile →
  supported (type col) = false →
  Forall2 (λ rr rr' : Row, rr' !! name col = rr !! name col)
    rws (rows (cleanData rt rws profile)).
Proof.
  intros Hnd Hcol Hty.
  assert (name col ∉ name <$> reported profile) as Hk.
  { intros Hin. apply list_elem_of_fmap in Hin as (c & E & Hc).
    apply list_elem_of_filter in Hc as [Hs Hc].
    assert (c = col) as -> by (by eapply same_name_same_column).
    by rewrite Hty in Hs. }
  pose proof (fold_transform_unwritten rt (summaries rt rws profile).1
                (summaries rt rws profile).2 (columns profile) rws (name col) Hk) as E.
  rewrite <- cleanData_rows in E. symmetry in E.
  apply list_eq_Forall2 in E. rewrite Forall2_fmap in E.
  eapply Forall2_impl; [exact E|]. intros rr rr' Err. by symmetry.
Qed.

Lemma unsupported_column_passed_through_witness :
  Forall2 (λ rr rr' : Row, rr' !! "id" = rr !! "id")
    Unsupported.rws
    (rows (cleanData Reference.rt Unsupported.rws Unsupported.profile)).
Proof.
  apply (unsupported_column_passed_through Reference.rt Unsupported.rws
           Unsupported.profile {| name := "id"; type := other |}).
  - simpl. apply NoDup_cons. split; [|apply NoDup_singleton].
    intros H. apply list_elem_of_singleton in H. discriminate H.
  - simpl. apply list_elem_of_here.
  - reflexivity.
Defined.
